(** * PreCheck AI: the analysis pipeline of [app_real.py]

    A shallow embedding of the helper functions, the "Run Full Check"
    handler of the Upload tab and the risk computation of the Results tab,
    followed by the properties proved about them.

    Python values are modelled as follows.
    - a [str] is the list of its code points;
    - a [bytes] object is a list of bytes;
    - a number that may be an [int] or a [float] is a rational ([Q]); the
      similarity ratio is computed exactly, where the library rounds to a
      double;
    - the file system is a finite map from paths to contents;
    - a function that may raise returns a [result]; effects on the file
      system, the random generator and the session state are threaded
      through a state-and-exception monad [M]. *)

From Stdlib Require Import ZArith NArith QArith Lqa Lia.
From stdpp Require Import base list strings gmap sorting.

Abbreviation str := (list N).
Abbreviation bytes := (list Byte.byte).

(** ** Python builtins used by the program *)

Module Py.

(** Source literals are UTF-8; [u] gives the code points of a literal. *)
Fixpoint utf8_go (bs : list N) (need : nat) (acc : N) : str :=
  match bs with
  | [] => []
  | b :: bs' =>
    match need with
    | O =>
      if (b <? 0x80)%N then b :: utf8_go bs' 0 0%N
      else if (b <? 0xE0)%N then utf8_go bs' 1 (N.land b 0x1F)
      else if (b <? 0xF0)%N then utf8_go bs' 2 (N.land b 0x0F)
      else utf8_go bs' 3 (N.land b 0x07)
    | S k =>
      let acc' := N.lor (N.shiftl acc 6) (N.land b 0x3F) in
      match k with
      | O => acc' :: utf8_go bs' 0 0%N
      | S _ => utf8_go bs' k acc'
      end
    end
  end.

Definition u (s : string) : str :=
  utf8_go (map Ascii.N_of_ascii (String.list_ascii_of_string s)) 0 0%N.

(** [s.startswith(p)] *)
Fixpoint startswith (p s : str) : bool :=
  match p, s with
  | [], _ => true
  | _ :: _, [] => false
  | x :: p', y :: s' => (x =? y)%N && startswith p' s'
  end.

(** [s.endswith(p)] *)
Definition endswith (p s : str) : bool := startswith (rev p) (rev s).

(** [sub in s] on strings: [sub] occurs as a contiguous slice of [s]. *)
Fixpoint contains (sub s : str) : bool :=
  startswith sub s ||
  match s with
  | [] => false
  | _ :: s' => contains sub s'
  end.

(** Unicode white space, the separators of [str.split()]. *)
Definition is_space (c : N) : bool :=
  ((0x09 <=? c) && (c <=? 0x0D) || (0x1C <=? c) && (c <=? 0x20)
   || (c =? 0x85) || (c =? 0xA0) || (c =? 0x1680)
   || (0x2000 <=? c) && (c <=? 0x200A)
   || (c =? 0x2028) || (c =? 0x2029) || (c =? 0x202F) || (c =? 0x205F)
   || (c =? 0x3000))%N.

(** [s.split()]: the maximal runs of characters that are not white space;
    [cur] is the run being read. *)
Fixpoint split_go (s cur : str) : list str :=
  match s with
  | [] => match cur with [] => [] | _ :: _ => [cur] end
  | c :: s' =>
    if is_space c
    then match cur with
         | [] => split_go s' []
         | _ :: _ => cur :: split_go s' []
         end
    else split_go s' (cur ++ [c])
  end.

Definition split (s : str) : list str := split_go s [].

(** [sep.join(parts)] *)
Fixpoint join (sep : str) (parts : list str) : str :=
  match parts with
  | [] => []
  | [p] => p
  | p :: rest => p ++ sep ++ join sep rest
  end.

(** Comparison of strings, by code points. *)
Fixpoint str_leb (a b : str) : bool :=
  match a, b with
  | [], _ => true
  | _ :: _, [] => false
  | x :: a', y :: b' =>
    if (x <? y)%N then true else if (y <? x)%N then false else str_leb a' b'
  end.

(** [sorted(xs)] for a collection of strings. *)
Definition str_le (a b : str) : Prop := str_leb a b = true.

#[global] Instance str_le_dec : RelDecision str_le :=
  λ a b, decide (str_leb a b = true).

Definition sorted (xs : list str) : list str := merge_sort str_le xs.

(** [x < y] and [max] on numbers: [max] keeps the first of equal maxima. *)
Definition Qltb (x y : Q) : bool := negb (Qle_bool y x).
Definition max2 (m x : Q) : Q := if Qltb m x then x else m.
Definition max_from (first : Q) (rest : list Q) : Q := fold_left max2 rest first.

(** ASCII-only lower casing, an instance of [str.lower] on ASCII text. *)
Definition ascii_lower_char (c : N) : N :=
  if ((0x41 <=? c) && (c <=? 0x5A))%N then (c + 32)%N else c.
Definition ascii_lower (s : str) : str := map ascii_lower_char s.

End Py.

(** ** rapidfuzz *)

Module RapidFuzz.
Import Py.

(** Length of a longest common subsequence. *)
Fixpoint lcs (a b : str) : nat :=
  match a with
  | [] => 0
  | x :: a' =>
    (fix row (b : str) : nat :=
       match b with
       | [] => 0
       | y :: b' =>
         if (x =? y)%N then S (lcs a' b')
         else Nat.max (lcs a' b) (row b')
       end) b
  end.

(** Insertion/deletion distance. *)
Definition indel_distance (a b : str) : Z :=
  (Z.of_nat (length a) + Z.of_nat (length b) - 2 * Z.of_nat (lcs a b))%Z.

(** [_norm_distance(dist, lensum, score_cutoff)] with [score_cutoff = 0]. *)
Definition norm_distance (dist lensum : Z) : Q :=
  let score :=
    if (lensum =? 0)%Z then 100%Q
    else (100 - 100 * inject_Z dist / inject_Z lensum)%Q in
  if Qle_bool 0 score then score else 0%Q.

Definition bool_of_len (n : Z) : Z := if (n =? 0)%Z then 0%Z else 1%Z.

Definition len (s : str) : Z := Z.of_nat (length s).

(** Modelled from the spec: [fuzz.token_set_ratio] belongs to the rapidfuzz
    package, which [app_real.py] imports and whose code is not part of the
    repository. The specification calls it a token-set overlap ratio with
    the standard fuzzy token-set matching semantics, order-independent and
    duplicate-insensitive, zero against an empty text. This is the
    library's published algorithm, called as the program calls it (no
    processor, no score cutoff): both texts are split on white space into
    sets of tokens; an empty text or an empty token set scores 0; when one
    set contains the other the score is 100; otherwise the score is the
    best of three normalised insertion/deletion similarities. *)
Definition token_set_ratio (s1 s2 : str) : Q :=
  match s1, s2 with
  | [], _ | _, [] => 0%Q
  | _ :: _, _ :: _ =>
    let tokens_a : gset str := list_to_set (split s1) in
    let tokens_b : gset str := list_to_set (split s2) in
    if decide (tokens_a = ∅ ∨ tokens_b = ∅) then 0%Q
    else
      let intersect := tokens_a ∩ tokens_b in
      let diff_ab := tokens_a ∖ tokens_b in
      let diff_ba := tokens_b ∖ tokens_a in
      if decide (intersect ≠ ∅ ∧ (diff_ab = ∅ ∨ diff_ba = ∅)) then 100%Q
      else
        let diff_ab_joined := join (u " ") (sorted (elements diff_ab)) in
        let diff_ba_joined := join (u " ") (sorted (elements diff_ba)) in
        let ab_len := len diff_ab_joined in
        let ba_len := len diff_ba_joined in
        let sect_len := len (join (u " ") (elements intersect)) in
        let sect_ab_len := (sect_len + bool_of_len sect_len + ab_len)%Z in
        let sect_ba_len := (sect_len + bool_of_len sect_len + ba_len)%Z in
        let cutoff_distance := (sect_ab_len + sect_ba_len)%Z in
        let dist := indel_distance diff_ab_joined diff_ba_joined in
        let result :=
          if (dist <=? cutoff_distance)%Z
          then norm_distance dist (sect_ab_len + sect_ba_len)
          else 0%Q in
        if (sect_len =? 0)%Z then result
        else
          let sect_ab_dist := (bool_of_len sect_len + ab_len)%Z in
          let sect_ab_ratio :=
            norm_distance sect_ab_dist (sect_len + sect_ab_len) in
          let sect_ba_dist := (bool_of_len sect_len + ba_len)%Z in
          let sect_ba_ratio :=
            norm_distance sect_ba_dist (sect_len + sect_ba_len) in
          max_from result [sect_ab_ratio; sect_ba_ratio]
  end.

End RapidFuzz.

(** ** The program *)

Module App.
Import Py.

Inductive exn :=
  | FileNotFoundError (path : string)
  | ExternalError (origin : string).

Inductive result (A : Type) :=
  | Ok (a : A)
  | Raise (e : exn).
Arguments Ok {A} a.
Arguments Raise {A} e.

(** What one run of the [ffmpeg] command does: it exits with status 0 and
    has written the wave file, or it fails (the tool is missing, the
    container is unreadable, the exit status is not 0), possibly after
    writing part of its output. *)
Inductive ffmpeg_outcome :=
  | Converted (wav : bytes)
  | Failed (partial : option bytes).

(** The libraries and tools the program calls. [R] is the state of the
    random generator. *)
Record Externals (R : Type) := {
  str_lower : str → str;
  decode_utf8_ignore : bytes → str;
  extract_pdf_text : bytes → result str;
  docx2txt_process : bytes → result str;
  ffmpeg : bytes → ffmpeg_outcome;
  whisper_translate : string → bytes → result str;
  randint : R → Z → Z → Z * R
}.
Arguments str_lower {R} _ _.
Arguments decode_utf8_ignore {R} _ _.
Arguments extract_pdf_text {R} _ _.
Arguments docx2txt_process {R} _ _.
Arguments ffmpeg {R} _ _.
Arguments whisper_translate {R} _ _ _.
Arguments randint {R} _ _ _ _.

(** A file of the uploader: its name and its content, which [getbuffer()]
    and [read()] both give. *)
Record UploadedFile := { name : str; getbuffer : bytes }.

(** [st.session_state["results"]] *)
Record Results := {
  plag_percent : Q;
  sensitive_words : list str;
  transcript : str
}.

Record World (R : Type) := {
  files : gmap string bytes;
  rng : R;
  session_results : option Results
}.
Arguments files {R} _.
Arguments rng {R} _.
Arguments session_results {R} _.

Definition with_files {R} (f : gmap string bytes → gmap string bytes)
    (w : World R) : World R :=
  {| files := f (files w); rng := rng w;
     session_results := session_results w |}.

Definition M (R A : Type) : Type := World R → result A * World R.

Definition ret {R A} (a : A) : M R A := λ w, (Ok a, w).

Definition bind {R A B} (c : M R A) (k : A → M R B) : M R B :=
  λ w, match c w with
       | (Ok a, w') => k a w'
       | (Raise e, w') => (Raise e, w')
       end.

(** [try: c  except Exception: handler] *)
Definition try_except {R A} (c : M R A) (handler : exn → M R A) : M R A :=
  λ w, match c w with
       | (Ok a, w') => (Ok a, w')
       | (Raise e, w') => handler e w'
       end.

Definition lift {R A} (r : result A) : M R A := λ w, (r, w).

Notation "'do' x <- c 'in' k" := (bind c (λ x, k))
  (at level 10, x name, c at level 100, k at level 200).
Notation "'run' c 'in' k" := (bind c (λ _, k))
  (at level 10, c at level 100, k at level 200).

(** [with open(path, "wb") as f: f.write(data)] *)
Definition write_file {R} (path : string) (data : bytes) : M R unit :=
  λ w, (Ok tt, with_files <[path := data]> w).

Definition read_file {R} (path : string) : M R bytes :=
  λ w, match files w !! path with
       | Some data => (Ok data, w)
       | None => (Raise (FileNotFoundError path), w)
       end.

(** [os.remove(path)] *)
Definition os_remove {R} (path : string) : M R unit :=
  λ w, match files w !! path with
       | Some _ => (Ok tt, with_files (delete path) w)
       | None => (Raise (FileNotFoundError path), w)
       end.

(** [os.path.exists(path)] *)
Definition os_path_exists {R} (path : string) : M R bool :=
  λ w, (Ok (bool_decide (is_Some (files w !! path))), w).

Definition set_results {R} (r : Results) : M R unit :=
  λ w, (Ok tt, {| files := files w; rng := rng w;
                  session_results := Some r |}).

Inductive RiskLevel := Low | Medium | High.

Definition risk_rank (r : RiskLevel) : nat :=
  match r with Low => 0 | Medium => 1 | High => 2 end.

(** The risk level of the Results tab. *)
Definition risk (plag_percent : Q) (sensitive_words : list str) : RiskLevel :=
  if Qltb 75 plag_percent || negb (bool_decide (sensitive_words = []))
  then High
  else if Qltb 40 plag_percent then Medium
  else Low.

Definition calculate_similarity (text1 text2 : str) : Q :=
  RapidFuzz.token_set_ratio text1 text2.

Definition keywords : list str := map u [
    "kill"; "murder"; "attack"; "shoot"; "gun"; "knife"; "bomb"; "blood";
    "fight"; "violence"; "terror"; "threat"; "death"; "suicide"; "rape";
    "abuse"; "hate"; "racist"; "caste"; "religion"; "slur"; "discriminate";
    "insult"; "drug"; "cocaine"; "heroin"; "weed"; "alcohol"; "drink";
    "smoke"; "liquor"; "sex"; "porn"; "nude"; "fuck"; "shit"; "bitch";
    "asshole"; "bastard"; "dick"; "pussy"; "boobs"; "cock"; "screw";
    "whore"; "slut"; "வெறுப்பு"; "கொலை";
    "தாக்குதல்"; "குண்டு"; "கத்தி";
    "இனவெறி"; "பாலியல்"; "அவமதிப்பு";
    "மருந்து"; "குடி"; "மோசடி";
    "தூண்டுதல்"; "சாவு"; "அடிச்சு";
    "சாணம்"
  ].

Section Program.
Context {R : Type} (E : Externals R).

Definition random_randint (a b : Z) : M R Z :=
  λ w, let '(n, g) := randint E (rng w) a b in
       (Ok n, {| files := files w; rng := g;
                 session_results := session_results w |}).

(** The [subprocess.run(cmd, ..., check=True)] of [extract_audio]. *)
Definition run_ffmpeg (video_path audio_path : string) : M R unit :=
  λ w, match files w !! video_path with
       | None => (Raise (ExternalError "ffmpeg"), w)
       | Some video =>
         match ffmpeg E video with
         | Converted wav => (Ok tt, with_files <[audio_path := wav]> w)
         | Failed (Some part) =>
           (Raise (ExternalError "ffmpeg"),
            with_files <[audio_path := part]> w)
         | Failed None => (Raise (ExternalError "ffmpeg"), w)
         end
       end.

Definition extract_audio (video_path audio_path : string) : M R bool :=
  try_except
    (run run_ffmpeg video_path audio_path in ret true)
    (λ _, ret false).

Definition transcribe_audio (audio_path model_size : string)
    : M R (option str) :=
  try_except
    (do audio <- read_file audio_path in
     do text <- lift (whisper_translate E model_size audio) in
     ret (Some text))
    (λ _, ret None).

Definition read_reference_file (file : UploadedFile) : M R str :=
  if endswith (u ".txt") (name file) then
    ret (decode_utf8_ignore E (getbuffer file))
  else if endswith (u ".pdf") (name file) then
    run write_file "temp_ref.pdf" (getbuffer file) in
    do data <- read_file "temp_ref.pdf" in
    do text <- lift (extract_pdf_text E data) in
    run os_remove "temp_ref.pdf" in
    ret text
  else if endswith (u ".docx") (name file) then
    run write_file "temp_ref.docx" (getbuffer file) in
    do data <- read_file "temp_ref.docx" in
    do text <- lift (docx2txt_process E data) in
    run os_remove "temp_ref.docx" in
    ret text
  else ret [].

(** The [for ref in reference_files] loop of [check_plagiarism]. *)
Fixpoint similarities_loop (transcript : str)
    (reference_files : list UploadedFile) (similarities : list Q)
    : M R (list Q) :=
  match reference_files with
  | [] => ret similarities
  | ref :: rest =>
    do ref_text <- read_reference_file ref in
    let sim := calculate_similarity transcript ref_text in
    similarities_loop transcript rest (similarities ++ [sim])
  end.

Definition check_plagiarism (transcript : str)
    (reference_files : list UploadedFile) : M R Q :=
  match reference_files with
  | [] => do n <- random_randint 15 50 in ret (inject_Z n)
  | _ :: _ =>
    do similarities <- similarities_loop transcript reference_files [] in
    match similarities with
    | first :: rest => ret (max_from first rest)
    | [] => do n <- random_randint 15 50 in ret (inject_Z n)
    end
  end.

Definition fake_sensitive_check (text : str) : list str :=
  filter (λ k, contains (str_lower E k) (str_lower E text) = true) keywords.

(** The handler of the "Run Full Check" button. *)
Definition run_full_check (uploaded_video : bytes) (model_choice : string)
    (reference_files : list UploadedFile) : M R unit :=
  let video_path := "temp_video.mp4" in
  run write_file video_path uploaded_video in
  let audio_path := "temp_audio.wav" in
  do extracted <- extract_audio video_path audio_path in
  if extracted then
    do transcript <- transcribe_audio audio_path model_choice in
    run match transcript with
        | Some (c :: cs) =>
          let transcript := c :: cs in
          do plag_percent <- check_plagiarism transcript reference_files in
          let sensitive_words := fake_sensitive_check transcript in
          set_results {| plag_percent := plag_percent;
                         sensitive_words := sensitive_words;
                         transcript := transcript |}
        | Some [] | None => ret tt
        end in
    run os_remove video_path in
    do audio_exists <- os_path_exists audio_path in
    if audio_exists then os_remove audio_path else ret tt
  else ret tt.

End Program.

(** The paths the program reserves for its temporary files. *)
Definition temp_paths : list string :=
  ["temp_video.mp4"; "temp_audio.wav"; "temp_ref.pdf"; "temp_ref.docx"].

Definition no_temp_files {R} (w : World R) : Prop :=
  ∀ p, p ∈ temp_paths → files w !! p = None.

(** A number is an integer. *)
Definition is_integer (q : Q) : Prop := ∃ z : Z, (q == inject_Z z)%Q.

(** What [read_reference_file] returns or raises for a file. *)
Definition reference_text {R} (E : Externals R) (file : UploadedFile)
    : result str :=
  if endswith (u ".txt") (name file) then
    Ok (decode_utf8_ignore E (getbuffer file))
  else if endswith (u ".pdf") (name file) then
    extract_pdf_text E (getbuffer file)
  else if endswith (u ".docx") (name file) then
    docx2txt_process E (getbuffer file)
  else Ok [].

(** The contract of [random.randint(a, b)]: an integer [N] with
    [a <= N <= b]. *)
Definition randint_in_range {R} (E : Externals R) : Prop :=
  ∀ g a b, (a <= b)%Z → (a <= (randint E g a b).1 <= b)%Z.

End App.

(** ** Stand-ins for the external tools, to run the program on examples *)

Module Demo.
Import Py App.

(** A linear congruential generator in the place of the [random] module. *)
Definition lcg_randint (g a b : Z) : Z * Z :=
  ((a + g mod (b - a + 1))%Z, ((1103515245 * g + 12345) mod 2147483648)%Z).

Definition decode (data : bytes) : str := utf8_go (map Byte.to_N data) 0 0%N.

Definition encode_ascii (s : string) : bytes := String.list_byte_of_string s.

(** A parser that rejects the documents that do not start with ['%']. *)
Definition pdf_text (data : bytes) : result str :=
  match data with
  | Byte.x25 :: rest => Ok (decode rest)
  | _ => Raise (ExternalError "pdfminer")
  end.

(** A parser that rejects the documents that do not start with ['P']. *)
Definition docx_text (data : bytes) : result str :=
  match data with
  | Byte.x50 :: rest => Ok (decode rest)
  | _ => Raise (ExternalError "docx2txt")
  end.

(** A converter that accepts the files that start with a zero byte, as
    an MP4 container does, and fails on the others without any output. *)
Definition convert (video : bytes) : ffmpeg_outcome :=
  match video with
  | Byte.x00 :: _ => Converted video
  | _ => Failed None
  end.

(** The speech model is played by the decoder, applied to the bytes that
    follow the first one. *)
Definition externals : Externals Z := {|
  str_lower := ascii_lower;
  decode_utf8_ignore := decode;
  extract_pdf_text := pdf_text;
  docx2txt_process := docx_text;
  ffmpeg := convert;
  whisper_translate := λ _ audio, Ok (decode (tail audio));
  randint := lcg_randint
|}.

Definition world0 : World Z :=
  {| files := ∅; rng := 2025%Z; session_results := None |}.

Definition upload (file_name content : string) : UploadedFile :=
  {| name := u file_name; getbuffer := encode_ascii content |}.

(** A file named as a PDF that the parser rejects, and two text files. *)
Definition notes_pdf : UploadedFile := upload "notes.pdf" "not a pdf".
Definition intro_txt : UploadedFile := upload "intro.txt" "a c".
Definition essay_txt : UploadedFile := upload "essay.txt" "a b d".

(** An upload that is not a video, and one that the converter accepts. *)
Definition not_a_video : bytes := encode_ascii "not a video".
Definition spoken (words : string) : bytes := Byte.x00 :: encode_ascii words.

End Demo.

(** ** What the tabs show *)

Module Display.
Import Py App.

(** The call that shows a message: [st.error], [st.warning] or
    [st.success]. *)
Inductive banner := StError | StWarning | StSuccess.

(** How alarming a message is. *)
Definition banner_rank (b : banner) : nat :=
  match b with StSuccess => 0 | StWarning => 1 | StError => 2 end.

(** The message about the sensitive words, in the Results tab. *)
Definition sensitive_message (sensitive_words : list str) : banner * str :=
  match sensitive_words with
  | _ :: _ =>
    (StWarning, u "⚠️ Sensitive words found: " ++ join (u ", ") sensitive_words)
  | [] => (StSuccess, u "✅ No abusive or offensive language detected.")
  end.

(** The message about the plagiarism score, in the Results tab. *)
Definition plagiarism_message (plag_percent : Q) : banner * str :=
  if Qltb 75 plag_percent then
    (StError, u "🚨 High plagiarism detected — content likely copied.")
  else if Qltb 40 plag_percent then
    (StWarning, u "⚠️ Medium plagiarism — review suggested.")
  else (StSuccess, u "🟢 Content appears original and safe.").

(** The value of the "Abusive Words" metric. *)
Definition abusive_words (sensitive_words : list str) : nat :=
  length sensitive_words.

(** The transcript preview of the Upload tab:
    [transcript[:1500] + ("..." if len(transcript) > 1500 else "")]. *)
Definition transcript_preview (transcript : str) : str :=
  take 1500 transcript
  ++ (if (1500 <? length transcript)%nat then u "..." else u "").

(** The transcript shown in the Results tab: [transcript[:2000]]. *)
Definition transcript_area (transcript : str) : str := take 2000 transcript.

End Display.

(** ** What a computation leaves alone *)

Module Frame.
Import App.

(** Every run of [c] relates the world before to the world after by
    [rel], whether [c] returns or raises. *)
Definition keeps {R A} (rel : World R → World R → Prop) (c : M R A) : Prop :=
  ∀ w r w', c w = (r, w') → rel w w'.

(** The files outside the paths [ps] are the same. *)
Definition files_outside {R} (ps : list string) (w w' : World R) : Prop :=
  ∀ p, p ∉ ps → files w' !! p = files w !! p.

Definition same_files {R} (w w' : World R) : Prop := files w' = files w.

Definition same_rng {R} (w w' : World R) : Prop := rng w' = rng w.

Definition same_session {R} (w w' : World R) : Prop :=
  session_results w' = session_results w.

(** Nothing changes but, possibly, the files at the paths [ps]. *)
Definition only_files {R} (ps : list string) (w w' : World R) : Prop :=
  files_outside ps w w' ∧ same_rng w w' ∧ same_session w w'.

(** The paths of the temporary reference files. *)
Definition temp_refs : list string := ["temp_ref.pdf"; "temp_ref.docx"].

End Frame.

(** ** More stand-ins *)

Module Scenario.
Import Py App.

(** The tools of [Demo], with a speech model that always fails. *)
Definition deaf : Externals Z := {|
  str_lower := ascii_lower;
  decode_utf8_ignore := Demo.decode;
  extract_pdf_text := Demo.pdf_text;
  docx2txt_process := Demo.docx_text;
  ffmpeg := Demo.convert;
  whisper_translate := λ _ _, Raise (ExternalError "whisper");
  randint := Demo.lcg_randint
|}.

(** A working directory that holds a file of the user and a file left at
    the path of the temporary PDF. *)
Definition busy_world : World Z :=
  {| files := {[ "thesis.txt" := Demo.encode_ascii "my thesis";
                 "temp_ref.pdf" := Demo.encode_ascii "left over" ]};
     rng := 7%Z; session_results := None |}.

(** The same directory once the handler has copied an upload. *)
Definition uploaded_world : World Z :=
  with_files <["temp_video.mp4" := Demo.spoken "a b"]> busy_world.

Definition copy_pdf : UploadedFile := Demo.upload "copy.pdf" "%a b".
Definition report_docx : UploadedFile := Demo.upload "report.docx" "Pa b c".
Definition scan_PDF : UploadedFile := Demo.upload "SCAN.PDF" "%a b".

End Scenario.

(** * Properties *)

Import Py RapidFuzz App.

(** ** Comparisons and [max] *)

Lemma Qltb_lt (x y : Q) : Qltb x y = true ↔ (x < y)%Q.
Proof.
  unfold Qltb. rewrite negb_true_iff, <- not_true_iff_false, Qle_bool_iff.
  split; [apply Qnot_le_lt | apply Qlt_not_le].
Qed.

Lemma Qltb_ge (x y : Q) : Qltb x y = false ↔ (y <= x)%Q.
Proof.
  unfold Qltb. rewrite negb_false_iff. apply Qle_bool_iff.
Qed.

Lemma max2_cases (m x : Q) :
  (max2 m x = m ∧ (x <= m)%Q) ∨ (max2 m x = x ∧ (m < x)%Q).
Proof.
  unfold max2. destruct (Qltb m x) eqn:H.
  - right. split; [done | by apply Qltb_lt].
  - left. split; [done | by apply Qltb_ge].
Qed.

(** [max] returns an element of its argument, and no element is above it. *)
Lemma max_from_elem (first : Q) (rest : list Q) :
  max_from first rest ∈ first :: rest.
Proof.
  unfold max_from. revert first.
  induction rest as [|x rest IH]; intros first; simpl.
  - apply list_elem_of_here.
  - destruct (max2_cases first x) as [[-> _]|[-> _]].
    + specialize (IH first). apply elem_of_cons in IH as [IH|IH].
      * rewrite IH. apply list_elem_of_here.
      * by do 2 apply list_elem_of_further.
    + apply list_elem_of_further, IH.
Qed.

Lemma max_from_upper (first : Q) (rest : list Q) (y : Q) :
  y ∈ first :: rest → (y <= max_from first rest)%Q.
Proof.
  unfold max_from. revert first y.
  induction rest as [|x rest IH]; intros first y Hy; simpl.
  - apply list_elem_of_singleton in Hy as ->. apply Qle_refl.
  - destruct (max2_cases first x) as [[-> Hle]|[-> Hlt]].
    + apply elem_of_cons in Hy as [->|Hy].
      * apply IH, list_elem_of_here.
      * apply elem_of_cons in Hy as [->|Hy].
        -- eapply Qle_trans; [exact Hle | apply IH, list_elem_of_here].
        -- apply IH. by apply list_elem_of_further.
    + apply elem_of_cons in Hy as [->|Hy].
      * eapply Qle_trans; [apply Qlt_le_weak, Hlt | apply IH, list_elem_of_here].
      * apply elem_of_cons in Hy as [->|Hy].
        -- apply IH, list_elem_of_here.
        -- apply IH. by apply list_elem_of_further.
Qed.

(** ** The risk level *)

Lemma risk_cases (s : Q) (h : list str) :
  (risk s h = High ∧ ((75 < s)%Q ∨ h ≠ [])) ∨
  (risk s h = Medium ∧ (40 < s)%Q ∧ (s <= 75)%Q ∧ h = []) ∨
  (risk s h = Low ∧ (s <= 40)%Q ∧ h = []).
Proof.
  unfold risk.
  destruct (Qltb 75 s) eqn:H75; simpl.
  { left. split; [done|]. left. by apply Qltb_lt. }
  apply Qltb_ge in H75.
  case_bool_decide as Hh; simpl.
  - destruct (Qltb 40 s) eqn:H40.
    + right; left. apply Qltb_lt in H40. done.
    + right; right. apply Qltb_ge in H40. done.
  - left. split; [done|]. by right.
Qed.

(** C1. The risk level is [High] exactly when the score is above 75 or
    there is a sensitive hit, [Medium] exactly when the score is in (40,75]
    with no hit, [Low] exactly when the score is at most 40 with no hit;
    with no hit, 40 gives [Low], 41 and 75 give [Medium], 76 gives [High]. *)
Theorem risk_decision_table (s : Q) (h : list str) :
  (risk s h = High ↔ (75 < s)%Q ∨ h ≠ []) ∧
  (risk s h = Medium ↔ (40 < s)%Q ∧ (s <= 75)%Q ∧ h = []) ∧
  (risk s h = Low ↔ (s <= 40)%Q ∧ h = []) ∧
  risk 40 [] = Low ∧ risk 41 [] = Medium ∧
  risk 75 [] = Medium ∧ risk 76 [] = High.
Proof.
  split_and!; try reflexivity;
    destruct (risk_cases s h) as [[-> Hc]|[[-> (Ha&Hb&Hc)]|[-> [Ha Hc]]]];
    (split; [intros Hr; try discriminate Hr | intros Hr]);
    try done; exfalso.
  - destruct Hr; [lra | done].
  - destruct Hr; [lra | done].
  - destruct Hr as (?&?&?). destruct Hc; [lra | done].
  - destruct Hr as (?&?&?). lra.
  - destruct Hr as [? ?]. destruct Hc; [lra | done].
  - destruct Hr as [? ?]. lra.
Qed.

(** C10. With the hits fixed, a larger score never gives a lower level. *)
Theorem risk_monotone (h : list str) (s1 s2 : Q) :
  (s1 <= s2)%Q → risk_rank (risk s1 h) ≤ risk_rank (risk s2 h).
Proof.
  intros Hle.
  destruct (risk_cases s1 h) as [[-> H1]|[[-> (?&?&?)]|[-> [? ?]]]];
    destruct (risk_cases s2 h) as [[-> H2]|[[-> (?&?&?)]|[-> [? ?]]]];
    simpl; try lia; exfalso.
  - destruct H1; [lra | done].
  - destruct H1; [lra | done].
  - lra.
Qed.

Lemma risk_monotone_witness :
  (40 <= 76)%Q ∧ risk_rank (risk 40 []) ≤ risk_rank (risk 76 []).
Proof.
  assert (H : (40 <= 76)%Q) by (vm_compute; discriminate).
  split; [exact H | exact (risk_monotone [] 40 76 H)].
Defined.

(** ** Substring containment *)

Lemma startswith_prefix (p s : str) :
  startswith p s = true ↔ ∃ post, s = p ++ post.
Proof.
  revert s. induction p as [|x p IH]; intros s; simpl.
  - split; [intros _; by exists s | done].
  - destruct s as [|y s].
    + split; [done | intros [post Hpost]; discriminate Hpost].
    + rewrite andb_true_iff, N.eqb_eq, IH. split.
      * intros [-> [post ->]]. by exists post.
      * intros [post Hpost]. injection Hpost as -> ->. eauto.
Qed.

Lemma contains_slice (sub s : str) :
  contains sub s = true ↔ ∃ pre post, s = pre ++ sub ++ post.
Proof.
  induction s as [|c s IH].
  - simpl. rewrite orb_false_r, startswith_prefix. split.
    + intros [post ->]. by exists [], post.
    + intros (pre & post & Hs). symmetry in Hs.
      apply app_eq_nil in Hs as [-> Hs]. eauto.
  - change (contains sub (c :: s))
      with (startswith sub (c :: s) || contains sub s).
    rewrite orb_true_iff, startswith_prefix, IH. split.
    + intros [[post ->]|(pre & post & ->)].
      * by exists [], post.
      * by exists (c :: pre), post.
    + intros ([|c' pre] & post & Hs); simpl in Hs.
      * left. by exists post.
      * right. injection Hs as -> ->. by exists pre, post.
Qed.

(** ** The sensitivity screener *)

Lemma keywords_NoDup : NoDup keywords.
Proof. apply (bool_decide_unpack _). by vm_compute. Qed.

Section Screener.
Context {R : Type} (E : Externals R).

(** C4. The screener returns exactly the keywords whose lower-cased form
    is a slice of the lower-cased transcript; the hits are keywords as the
    list spells them, in the order of the list, without duplicates. *)
Theorem fake_sensitive_check_spec (text : str) :
  (∀ k, k ∈ fake_sensitive_check E text ↔
        k ∈ keywords ∧
        ∃ pre post, str_lower E text = pre ++ str_lower E k ++ post) ∧
  fake_sensitive_check E text `sublist_of` keywords ∧
  NoDup (fake_sensitive_check E text).
Proof.
  unfold fake_sensitive_check. split_and!.
  - intros k. rewrite list_elem_of_filter, contains_slice. tauto.
  - apply sublist_filter.
  - apply NoDup_filter, keywords_NoDup.
Qed.

End Screener.

(** A keyword said three times, in three spellings, is reported once; a
    keyword inside a longer word is reported as well. *)
Example fake_sensitive_check_repeated :
  fake_sensitive_check Demo.externals (u "Kill, KILL and kill: a skill")
  = [u "kill"].
Proof. by vm_compute. Qed.

Example fake_sensitive_check_order :
  fake_sensitive_check Demo.externals (u "a gun, then a bomb, then a kill")
  = [u "kill"; u "gun"; u "bomb"].
Proof. by vm_compute. Qed.

(** ** The similarity scorer *)

Lemma lcs_le_l (a b : str) : lcs a b ≤ length a.
Proof.
  revert b. induction a as [|x a IH]; intros b; [simpl; lia|].
  induction b as [|y b IHb]; [simpl; lia|].
  simpl. simpl in IHb. destruct (x =? y)%N.
  - specialize (IH b). lia.
  - specialize (IH (y :: b)). lia.
Qed.

Lemma lcs_le_r (a b : str) : lcs a b ≤ length b.
Proof.
  revert b. induction a as [|x a IH]; intros b; [simpl; lia|].
  induction b as [|y b IHb]; [simpl; lia|].
  simpl. simpl in IHb. destruct (x =? y)%N.
  - specialize (IH b). lia.
  - specialize (IH (y :: b)). simpl in IH. lia.
Qed.

Lemma indel_distance_range (a b : str) :
  (0 <= indel_distance a b <= len a + len b)%Z.
Proof.
  unfold indel_distance, len.
  pose proof (lcs_le_l a b). pose proof (lcs_le_r a b). lia.
Qed.

Lemma norm_distance_range (dist lensum : Z) :
  (0 <= dist)%Z → (0 <= lensum)%Z →
  (0 <= norm_distance dist lensum <= 100)%Q.
Proof.
  intros Hd Hl. unfold norm_distance.
  set (score := if (lensum =? 0)%Z then _ else _).
  assert (Hs : (score <= 100)%Q).
  { subst score. destruct (Z.eqb_spec lensum 0) as [|Hne]; [lra|].
    assert (0 <= 100 * inject_Z dist / inject_Z lensum)%Q; [|lra].
    apply Qle_shift_div_l.
    - change 0%Q with (inject_Z 0). rewrite <- Zlt_Qlt. lia.
    - assert (0 <= inject_Z dist)%Q; [|lra].
      change 0%Q with (inject_Z 0). rewrite <- Zle_Qle. lia. }
  destruct (Qle_bool 0 score) eqn:H0.
  - apply Qle_bool_iff in H0. done.
  - lra.
Qed.

Lemma len_nonneg (s : str) : (0 <= len s)%Z.
Proof. unfold len. lia. Qed.

Lemma bool_of_len_range (n : Z) : (0 <= bool_of_len n <= 1)%Z.
Proof. unfold bool_of_len. destruct (n =? 0)%Z; lia. Qed.

Lemma max_from_range (lo hi first : Q) (rest : list Q) :
  Forall (λ q, (lo <= q <= hi)%Q) (first :: rest) →
  (lo <= max_from first rest <= hi)%Q.
Proof.
  intros Hall. rewrite Forall_forall in Hall.
  apply Hall, max_from_elem.
Qed.

(** The ratio is a percentage. *)
Lemma token_set_ratio_range (s1 s2 : str) :
  (0 <= token_set_ratio s1 s2 <= 100)%Q.
Proof.
  unfold token_set_ratio.
  destruct s1 as [|c1 s1]; [lra|]. destruct s2 as [|c2 s2]; [lra|].
  cbv zeta. case_decide; [lra|]. case_decide; [lra|].
  set (ab := join _ (sorted (elements (_ ∖ _)))).
  set (ba := join _ (sorted (elements (_ ∖ _)))).
  set (sect := join _ (elements (_ ∩ _))).
  pose proof (len_nonneg ab). pose proof (len_nonneg ba).
  pose proof (len_nonneg sect). pose proof (bool_of_len_range (len sect)).
  pose proof (indel_distance_range ab ba).
  set (result := if (_ <=? _)%Z then _ else _).
  assert (Hres : (0 <= result <= 100)%Q).
  { subst result. case_match; [|lra]. apply norm_distance_range; lia. }
  destruct (len sect =? 0)%Z; [done|].
  apply max_from_range. repeat constructor; try apply Hres;
    apply norm_distance_range; lia.
Qed.

Lemma split_go_cur (s cur : str) : cur ≠ [] → split_go s cur ≠ [].
Proof.
  revert cur. induction s as [|c s IH]; intros cur Hcur; simpl.
  - by destruct cur.
  - destruct (is_space c).
    + by destruct cur.
    + apply IH. by destruct cur.
Qed.

Lemma split_go_spaces (s : str) : forallb is_space s = true → split_go s [] = [].
Proof.
  induction s as [|c s IH]; simpl; [done|].
  intros [-> Hs]%andb_true_iff. auto.
Qed.

Lemma split_go_token (s cur : str) :
  forallb is_space s = false → split_go s cur ≠ [].
Proof.
  revert cur. induction s as [|c s IH]; intros cur; simpl; [done|].
  destruct (is_space c); simpl.
  - intros Hs. destruct cur; [by apply IH | done].
  - intros _. apply split_go_cur. by destruct cur.
Qed.

(** A text against itself: 100 as soon as the text has a token. *)
Lemma token_set_ratio_self (t : str) :
  token_set_ratio t t = if forallb is_space t then 0%Q else 100%Q.
Proof.
  unfold token_set_ratio. destruct t as [|c t]; [done|].
  cbv zeta. fold (split (c :: t)).
  destruct (forallb is_space (c :: t)) eqn:Hsp.
  - unfold split. rewrite split_go_spaces by done. simpl.
    by rewrite decide_True by (by left).
  - pose proof (split_go_token (c :: t) [] Hsp) as Hne.
    fold (split (c :: t)) in Hne.
    set (tokens := list_to_set (split (c :: t)) : gset str).
    assert (Htokens : tokens ≠ ∅).
    { destruct (split (c :: t)) as [|tok toks]; [done|].
      apply (non_empty_inhabited_L tok), elem_of_list_to_set.
      apply list_elem_of_here. }
    rewrite decide_False by (by intros [?|?]).
    rewrite decide_True; [done|].
    split; [by rewrite (idemp_L (∩)) | left; apply difference_diag_L].
Qed.

Lemma token_set_ratio_empty_r (t : str) : token_set_ratio t [] = 0%Q.
Proof. by destruct t. Qed.

(** ** Loading the references *)

Section Plagiarism.
Context {R : Type} (E : Externals R).

Lemma read_reference_file_fst (file : UploadedFile) (w : World R) :
  (read_reference_file E file w).1 = reference_text E file.
Proof.
  unfold read_reference_file, reference_text.
  repeat case_match; try done;
    unfold bind, write_file, read_file, lift, os_remove, with_files; simpl;
    rewrite lookup_insert_eq; simpl;
    case_match; simpl; try done; by rewrite lookup_insert_eq.
Qed.

(** A reference that is neither a PDF nor a word document always loads,
    and touches no file. *)
Lemma read_reference_file_plain (file : UploadedFile) (w : World R) :
  endswith (u ".pdf") (name file) = false →
  endswith (u ".docx") (name file) = false →
  ∃ text, read_reference_file E file w = (Ok text, w).
Proof.
  intros Hpdf Hdocx. unfold read_reference_file. rewrite Hpdf, Hdocx.
  destruct (endswith (u ".txt") (name file)); by eexists.
Qed.

Lemma similarities_loop_ok transcript refs texts acc w :
  Forall2 (λ ref t, reference_text E ref = Ok t) refs texts →
  ∃ w', similarities_loop E transcript refs acc w
        = (Ok (acc ++ map (calculate_similarity transcript) texts), w').
Proof.
  intros Hall. revert acc w.
  induction Hall as [|ref t refs texts Ht _ IH]; intros acc w; simpl.
  - rewrite app_nil_r. by eexists.
  - unfold bind. pose proof (read_reference_file_fst ref w) as Hfst.
    destruct (read_reference_file E ref w) as [r w1]. simpl in Hfst.
    rewrite Hfst, Ht.
    destruct (IH (acc ++ [calculate_similarity transcript t]) w1) as [w' ->].
    rewrite <- app_assoc. by eexists.
Qed.

Lemma similarities_loop_raise transcript pre bad post e acc w :
  Forall (λ ref, ∃ t, reference_text E ref = Ok t) pre →
  reference_text E bad = Raise e →
  (similarities_loop E transcript (pre ++ bad :: post) acc w).1 = Raise e ∧
  similarities_loop E transcript (pre ++ bad :: post) acc w
  = similarities_loop E transcript (pre ++ [bad]) acc w.
Proof.
  intros Hpre Hbad. revert acc w.
  induction Hpre as [|ref pre [t Ht] _ IH]; intros acc w; simpl; unfold bind.
  - pose proof (read_reference_file_fst bad w) as Hfst.
    destruct (read_reference_file E bad w) as [r w1]. simpl in Hfst.
    by rewrite Hfst, Hbad.
  - pose proof (read_reference_file_fst ref w) as Hfst.
    destruct (read_reference_file E ref w) as [r w1]. simpl in Hfst.
    rewrite Hfst, Ht. apply IH.
Qed.

Lemma similarities_loop_Forall (P : Q → Prop) transcript refs acc w l w' :
  (∀ t, P (calculate_similarity transcript t)) →
  Forall P acc →
  similarities_loop E transcript refs acc w = (Ok l, w') →
  Forall P l.
Proof.
  intros HP. revert acc w.
  induction refs as [|ref refs IH]; intros acc w Hacc; simpl.
  - unfold ret. by intros [= <- _].
  - unfold bind. destruct (read_reference_file E ref w) as [[t|e] w1]; [|done].
    apply IH. apply Forall_app. split; [done|]. by constructor.
Qed.

End Plagiarism.

(** ** The plagiarism check *)

Section PlagiarismClaims.
Context {R : Type} (E : Externals R).

Lemma random_randint_run (a b : Z) (w : World R) :
  ∃ w', random_randint E a b w = (Ok (randint E (rng w) a b).1, w').
Proof.
  unfold random_randint. destruct (randint E (rng w) a b). by eexists.
Qed.

(** C5. With no reference document the plagiarism check returns a score
    and raises nothing; the score is the integer drawn from the random
    generator, between 15 and 50. *)
Theorem check_plagiarism_no_references (transcript : str) (w : World R) :
  randint_in_range E →
  ∃ n w', check_plagiarism E transcript [] w = (Ok (inject_Z n), w') ∧
          n = (randint E (rng w) 15 50).1 ∧ (15 <= n <= 50)%Z.
Proof.
  intros Hrand. simpl. unfold bind.
  destruct (random_randint_run 15 50 w) as [w' ->].
  eexists _, w'. split_and!; [done..| |]; apply Hrand; lia.
Qed.

(** C6. With one reference document or more, each of them loaded, the
    plagiarism check returns the maximum of the scores of the transcript
    against each reference: one of these scores, and none is above it. *)
Theorem check_plagiarism_max (transcript : str)
    (reference_files : list UploadedFile) (texts : list str) (w : World R) :
  reference_files ≠ [] →
  Forall2 (λ ref t, ∀ w0, (read_reference_file E ref w0).1 = Ok t)
    reference_files texts →
  ∃ s w', check_plagiarism E transcript reference_files w = (Ok s, w') ∧
          s ∈ map (calculate_similarity transcript) texts ∧
          ∀ x, x ∈ map (calculate_similarity transcript) texts → (x <= s)%Q.
Proof.
  intros Hne Hall.
  assert (Hall' : Forall2 (λ ref t, reference_text E ref = Ok t)
                    reference_files texts).
  { eapply Forall2_impl; [exact Hall|]. intros ref t Ht.
    by rewrite <- (read_reference_file_fst E ref w). }
  destruct (similarities_loop_ok E transcript _ _ [] w Hall') as [w' Hloop].
  destruct reference_files as [|ref refs]; [done|].
  unfold check_plagiarism, bind. rewrite Hloop. simpl.
  destruct texts as [|t texts]; [by apply Forall2_length in Hall|]. simpl.
  eexists _, w'. split_and!; [done | apply max_from_elem | apply max_from_upper].
Qed.

(** C7, amended. A score returned by the plagiarism check is a number
    between 0 and 100; it is an integer when no reference is supplied. *)
Theorem check_plagiarism_range (transcript : str)
    (reference_files : list UploadedFile) (w w' : World R) (s : Q) :
  randint_in_range E →
  check_plagiarism E transcript reference_files w = (Ok s, w') →
  (0 <= s <= 100)%Q ∧ (reference_files = [] → is_integer s).
Proof.
  intros Hrand.
  assert (Hdraw : ∀ w0 s0 w1,
    bind (random_randint E 15 50) (λ n, ret (inject_Z n)) w0 = (Ok s0, w1) →
    (0 <= s0 <= 100)%Q ∧ is_integer s0).
  { intros w0 s0 w1. unfold bind.
    destruct (random_randint_run 15 50 w0) as [w2 ->]. unfold ret.
    intros [= <- _]. pose proof (Hrand (rng w0) 15 50 ltac:(lia))%Z as [Hlo Hhi].
    split; [|by eexists]. split.
    - change 0%Q with (inject_Z 0). rewrite <- Zle_Qle. lia.
    - change 100%Q with (inject_Z 100). rewrite <- Zle_Qle. lia. }
  destruct reference_files as [|ref refs].
  { intros Hrun. apply Hdraw in Hrun as [? ?]. done. }
  unfold check_plagiarism. unfold bind at 1.
  destruct (similarities_loop E transcript (ref :: refs) [] w)
    as [[sims|e] w1] eqn:Hloop; [|done].
  apply (similarities_loop_Forall E (λ q, (0 <= q <= 100)%Q)) in Hloop;
    [|intros t; apply token_set_ratio_range|constructor].
  destruct sims as [|first rest].
  - intros Hrun. apply Hdraw in Hrun as [? ?]. done.
  - unfold ret. intros [= <- _]. split; [|done].
    by apply max_from_range.
Qed.

(** C3, amended. A failure while loading one reference document is not
    isolated: the exception leaves the plagiarism check at the first
    document that fails, no score is returned, and the documents after it
    are neither loaded nor scored. *)
Theorem check_plagiarism_reference_failure (transcript : str)
    (pre post : list UploadedFile) (bad : UploadedFile) (e : exn)
    (w : World R) :
  (∀ ref, ref ∈ pre → ∃ t, ∀ w0, (read_reference_file E ref w0).1 = Ok t) →
  (∀ w0, (read_reference_file E bad w0).1 = Raise e) →
  (check_plagiarism E transcript (pre ++ bad :: post) w).1 = Raise e ∧
  check_plagiarism E transcript (pre ++ bad :: post) w
  = check_plagiarism E transcript (pre ++ [bad]) w.
Proof.
  intros Hpre Hbad.
  assert (Hpre' : Forall (λ ref, ∃ t, reference_text E ref = Ok t) pre).
  { apply Forall_forall. intros ref Href. destruct (Hpre ref Href) as [t Ht].
    exists t. by rewrite <- (read_reference_file_fst E ref w). }
  assert (Hbad' : reference_text E bad = Raise e).
  { by rewrite <- (read_reference_file_fst E bad w). }
  destruct (similarities_loop_raise E transcript pre bad post e [] w Hpre' Hbad')
    as [Hraise Hsame].
  assert (Hcp : ∀ l, l ≠ [] → check_plagiarism E transcript l w
    = bind (similarities_loop E transcript l [])
        (λ similarities, match similarities with
           | first :: rest => ret (max_from first rest)
           | [] => bind (random_randint E 15 50) (λ n, ret (inject_Z n))
           end) w).
  { intros [|??]; done. }
  rewrite !Hcp by (by destruct pre).
  unfold bind. rewrite <- Hsame.
  destruct (similarities_loop E transcript (pre ++ bad :: post) [] w)
    as [[sims|e'] w1]; simpl in Hraise; [done|]. by injection Hraise as ->.
Qed.

End PlagiarismClaims.

(** ** The handler of the Upload tab *)

Section Handler.
Context {R : Type} (E : Externals R).

(** C2. When the audio extraction fails, the handler returns normally and
    the temporary copy of the video is still on disk. *)
Theorem run_full_check_extraction_failure (uploaded_video : bytes)
    (model_choice : string) (reference_files : list UploadedFile)
    (partial : option bytes) (w : World R) :
  ffmpeg E uploaded_video = Failed partial →
  ∃ w', run_full_check E uploaded_video model_choice reference_files w
        = (Ok tt, w') ∧
        files w' !! "temp_video.mp4" = Some uploaded_video.
Proof.
  intros Hfail.
  unfold run_full_check, extract_audio, try_except, run_ffmpeg, bind,
    write_file, ret.
  simpl. rewrite lookup_insert_eq, Hfail.
  destruct partial as [part|]; simpl; eexists; (split; [done|]); simpl.
  - by rewrite lookup_insert_ne, lookup_insert_eq.
  - by rewrite lookup_insert_eq.
Qed.

(** The two removals that end the branch taken after an extraction. *)
Lemma remove_media_run (w w' : World R) :
  bind (os_remove "temp_video.mp4") (λ _,
    bind (os_path_exists "temp_audio.wav") (λ audio_exists,
      if audio_exists then os_remove "temp_audio.wav" else ret tt)) w
  = (Ok tt, w') →
  files w' !! "temp_video.mp4" = None ∧ files w' !! "temp_audio.wav" = None.
Proof.
  unfold bind, os_remove, os_path_exists, ret, with_files. simpl.
  destruct (files w !! "temp_video.mp4") as [v|] eqn:Hv; [|done]. simpl.
  rewrite lookup_delete_ne by done.
  destruct (files w !! "temp_audio.wav") as [a|] eqn:Ha; simpl.
  - rewrite lookup_delete_ne, Ha by done.
    intros [= <-]. simpl. split.
    + by rewrite lookup_delete_ne, lookup_delete_eq.
    + by rewrite lookup_delete_eq.
  - intros [= <-]. simpl. split.
    + by rewrite lookup_delete_eq.
    + by rewrite lookup_delete_ne.
Qed.

(** After a successful extraction, a run that returns has removed the
    video copy and the audio file. *)
Lemma run_full_check_removes_media (uploaded_video wav : bytes)
    (model_choice : string) (reference_files : list UploadedFile)
    (w w' : World R) :
  ffmpeg E uploaded_video = Converted wav →
  run_full_check E uploaded_video model_choice reference_files w
  = (Ok tt, w') →
  files w' !! "temp_video.mp4" = None ∧ files w' !! "temp_audio.wav" = None.
Proof.
  intros Hconv.
  unfold run_full_check, extract_audio, try_except, run_ffmpeg, write_file.
  unfold bind at 1 2 3. simpl. rewrite lookup_insert_eq, Hconv. simpl.
  unfold bind at 1.
  destruct (transcribe_audio _ _ _ _) as [[transcript|e] w1]; [|done].
  unfold bind at 1.
  match goal with |- context [match ?c w1 with _ => _ end] =>
    destruct (c w1) as [[[]|e] w2] end; [|done].
  apply remove_media_run.
Qed.

End Handler.

(** ** The scorer on identical texts and on an empty reference *)

(** C8, amended. A text scored against itself gives 100 when it holds a
    character that is not white space, and 0 when it is empty or made of
    white space only. *)
Theorem self_similarity_score (t : str) :
  calculate_similarity t t = if forallb is_space t then 0%Q else 100%Q.
Proof. apply token_set_ratio_self. Qed.

(** C8 as stated fails on the empty text, whose score against itself is 0. *)
Lemma empty_text_against_itself :
  calculate_similarity [] [] = 0%Q ∧ ¬ (calculate_similarity [] [] == 100)%Q.
Proof. split; [reflexivity | by vm_compute]. Qed.

Example blank_text_against_itself :
  calculate_similarity (u "  ") (u "  ") = 0%Q.
Proof. by vm_compute. Qed.

Example sentence_against_itself :
  calculate_similarity (u "I will kill you") (u "I will kill you") = 100%Q.
Proof. by vm_compute. Qed.

(** C9. Any transcript scored against the empty reference text gives 0. *)
Theorem calculate_similarity_empty_reference (t : str) :
  calculate_similarity t [] = 0%Q.
Proof. apply token_set_ratio_empty_r. Qed.

(** ** The program on examples *)

Lemma demo_randint_in_range : randint_in_range Demo.externals.
Proof.
  intros g a b Hab. simpl. pose proof (Z.mod_pos_bound g (b - a + 1)). lia.
Qed.

Lemma check_plagiarism_no_references_witness :
  randint_in_range Demo.externals ∧
  ∃ n w', check_plagiarism Demo.externals (u "a clean message") []
            Demo.world0 = (Ok (inject_Z n), w') ∧
          n = (randint Demo.externals (rng Demo.world0) 15 50).1 ∧
          (15 <= n <= 50)%Z.
Proof.
  split; [exact demo_randint_in_range|].
  exact (check_plagiarism_no_references Demo.externals (u "a clean message")
           Demo.world0 demo_randint_in_range).
Defined.

Example check_plagiarism_draw :
  (check_plagiarism Demo.externals (u "a clean message") [] Demo.world0).1
  = Ok 24%Q.
Proof. by vm_compute. Qed.

Lemma check_plagiarism_max_witness :
  ∃ s w', check_plagiarism Demo.externals (u "a b")
            [Demo.intro_txt; Demo.essay_txt] Demo.world0 = (Ok s, w') ∧
          s ∈ map (calculate_similarity (u "a b")) [u "a c"; u "a b d"] ∧
          ∀ x, x ∈ map (calculate_similarity (u "a b")) [u "a c"; u "a b d"] →
               (x <= s)%Q.
Proof.
  apply (check_plagiarism_max Demo.externals (u "a b")
           [Demo.intro_txt; Demo.essay_txt] [u "a c"; u "a b d"] Demo.world0).
  - discriminate.
  - repeat constructor; intros w0; reflexivity.
Defined.

Example check_plagiarism_two_references :
  (check_plagiarism Demo.externals (u "a b")
     [Demo.intro_txt; Demo.essay_txt] Demo.world0).1 = Ok 100%Q.
Proof. by vm_compute. Qed.

(** C7 as stated fails: the score of "a b" against the reference "a c" is
    200/3, which is not an integer. *)
Lemma check_plagiarism_not_integer :
  ∃ s w', check_plagiarism Demo.externals (u "a b") [Demo.intro_txt]
            Demo.world0 = (Ok s, w') ∧
          (s == 200 # 3)%Q ∧ ¬ is_integer s.
Proof.
  exists (400 # 6), Demo.world0. split_and!.
  - by vm_compute.
  - reflexivity.
  - intros [z Hz]. unfold Qeq in Hz. simpl in Hz. lia.
Qed.

Lemma check_plagiarism_range_witness :
  (0 <= 400 # 6 <= 100)%Q ∧ ([Demo.intro_txt] = [] → is_integer (400 # 6)).
Proof.
  apply (check_plagiarism_range Demo.externals (u "a b") [Demo.intro_txt]
           Demo.world0 Demo.world0).
  - exact demo_randint_in_range.
  - by vm_compute.
Defined.

(** C3 as stated fails: a PDF that the parser rejects, followed by a text
    file that loads, makes the plagiarism check raise; no score comes out
    and the temporary PDF stays on disk. *)
Lemma check_plagiarism_reference_not_isolated :
  (read_reference_file Demo.externals Demo.essay_txt Demo.world0).1
  = Ok (u "a b d") ∧
  (check_plagiarism Demo.externals (u "a b")
     [Demo.notes_pdf; Demo.essay_txt] Demo.world0).1
  = Raise (ExternalError "pdfminer") ∧
  (¬ ∃ s w', check_plagiarism Demo.externals (u "a b")
               [Demo.notes_pdf; Demo.essay_txt] Demo.world0 = (Ok s, w')) ∧
  files (check_plagiarism Demo.externals (u "a b")
           [Demo.notes_pdf; Demo.essay_txt] Demo.world0).2 !! "temp_ref.pdf"
  = Some (getbuffer Demo.notes_pdf).
Proof.
  split_and!; try by vm_compute.
  intros (s & w' & Hout). by vm_compute in Hout.
Qed.

Lemma check_plagiarism_reference_failure_witness :
  (check_plagiarism Demo.externals (u "a b")
     ([Demo.intro_txt] ++ Demo.notes_pdf :: [Demo.essay_txt]) Demo.world0).1
  = Raise (ExternalError "pdfminer") ∧
  check_plagiarism Demo.externals (u "a b")
    ([Demo.intro_txt] ++ Demo.notes_pdf :: [Demo.essay_txt]) Demo.world0
  = check_plagiarism Demo.externals (u "a b")
      ([Demo.intro_txt] ++ [Demo.notes_pdf]) Demo.world0.
Proof.
  apply (check_plagiarism_reference_failure Demo.externals (u "a b")
           [Demo.intro_txt] [Demo.essay_txt] Demo.notes_pdf
           (ExternalError "pdfminer") Demo.world0).
  - intros ref ->%list_elem_of_singleton. exists (u "a c").
    intros w0. reflexivity.
  - intros w0. by rewrite read_reference_file_fst.
Defined.

Lemma run_full_check_extraction_failure_witness :
  ffmpeg Demo.externals Demo.not_a_video = Failed None ∧
  ∃ w', run_full_check Demo.externals Demo.not_a_video "tiny" [] Demo.world0
        = (Ok tt, w') ∧
        files w' !! "temp_video.mp4" = Some Demo.not_a_video.
Proof.
  assert (Hfail : ffmpeg Demo.externals Demo.not_a_video = Failed None)
    by reflexivity.
  split; [exact Hfail|].
  exact (run_full_check_extraction_failure Demo.externals Demo.not_a_video
           "tiny" [] None Demo.world0 Hfail).
Defined.

(** The run on an upload that is not a video, evaluated: the handler
    returns, no result is stored, and the copy of the upload is the one
    file left in the working directory. *)
Example run_full_check_not_a_video :
  run_full_check Demo.externals Demo.not_a_video "tiny" [] Demo.world0
  = (Ok tt, {| files := {[ "temp_video.mp4" := Demo.not_a_video ]};
               rng := rng Demo.world0; session_results := None |}).
Proof. by vm_compute. Qed.

(** A reference that fails to load, after a successful extraction and
    transcription: the handler is left by the exception and the three
    temporary files stay on disk. *)
Example run_full_check_reference_failure :
  (run_full_check Demo.externals (Demo.spoken "a b") "tiny"
     [Demo.notes_pdf] Demo.world0).1 = Raise (ExternalError "pdfminer") ∧
  files (run_full_check Demo.externals (Demo.spoken "a b") "tiny"
           [Demo.notes_pdf] Demo.world0).2
  = {[ "temp_video.mp4" := Demo.spoken "a b";
       "temp_audio.wav" := Demo.spoken "a b";
       "temp_ref.pdf" := getbuffer Demo.notes_pdf ]}.
Proof. split; by vm_compute. Qed.

(** A run in which every stage succeeds leaves no temporary file and
    stores the results. *)
Example run_full_check_success :
  (run_full_check Demo.externals (Demo.spoken "I will kill you") "tiny"
     [Demo.upload "copy.pdf" "%I will kill you"] Demo.world0)
  = (Ok tt, {| files := ∅; rng := rng Demo.world0;
               session_results := Some {|
                 plag_percent := 100;
                 sensitive_words := [u "kill"];
                 transcript := u "I will kill you" |} |}).
Proof. by vm_compute. Qed.

(** * Further properties of the program *)

Import Display Frame.

(** ** Frames of the monad and of the file operations *)

Section Frames.
Context {R : Type}.
Implicit Types (rel : World R → World R → Prop).

Lemma keeps_ret {A} rel (a : A) : Reflexive rel → keeps rel (ret a).
Proof. intros Hrefl w r w' [= _ <-]. apply Hrefl. Qed.

Lemma keeps_lift {A} rel (x : result A) : Reflexive rel → keeps rel (lift x).
Proof. intros Hrefl w r w' [= _ <-]. apply Hrefl. Qed.

Lemma keeps_bind {A B} rel (c : M R A) (k : A → M R B) :
  Transitive rel → keeps rel c → (∀ a, keeps rel (k a)) →
  keeps rel (bind c k).
Proof.
  intros Htrans Hc Hk w r w'. unfold bind.
  destruct (c w) as [[a|e] w1] eqn:Hcw.
  - intros Hka. eapply Htrans; [eapply Hc, Hcw | eapply Hk, Hka].
  - intros [= _ <-]. eapply Hc, Hcw.
Qed.

Lemma keeps_try_except {A} rel (c : M R A) (handler : exn → M R A) :
  Transitive rel → keeps rel c → (∀ e, keeps rel (handler e)) →
  keeps rel (try_except c handler).
Proof.
  intros Htrans Hc Hh w r w'. unfold try_except.
  destruct (c w) as [[a|e] w1] eqn:Hcw.
  - intros [= _ <-]. eapply Hc, Hcw.
  - intros Hhe. eapply Htrans; [eapply Hc, Hcw | eapply Hh, Hhe].
Qed.

Lemma keeps_weaken {A} rel rel' (c : M R A) :
  (∀ w w', rel w w' → rel' w w') → keeps rel c → keeps rel' c.
Proof. intros Himpl Hc w r w' Hrun. eapply Himpl, Hc, Hrun. Qed.

#[global] Instance files_outside_refl ps : Reflexive (@files_outside R ps).
Proof. by intros w p _. Qed.

#[global] Instance files_outside_trans ps : Transitive (@files_outside R ps).
Proof.
  intros w1 w2 w3 H12 H23 p Hp. by rewrite (H23 p Hp), (H12 p Hp).
Qed.

#[global] Instance same_files_refl : Reflexive (@same_files R).
Proof. by intros w. Qed.

#[global] Instance same_files_trans : Transitive (@same_files R).
Proof. unfold same_files. intros w1 w2 w3 H12 H23. by rewrite H23. Qed.

#[global] Instance same_rng_refl : Reflexive (@same_rng R).
Proof. by intros w. Qed.

#[global] Instance same_rng_trans : Transitive (@same_rng R).
Proof. unfold same_rng. intros w1 w2 w3 H12 H23. by rewrite H23. Qed.

#[global] Instance same_session_refl : Reflexive (@same_session R).
Proof. by intros w. Qed.

#[global] Instance same_session_trans : Transitive (@same_session R).
Proof. unfold same_session. intros w1 w2 w3 H12 H23. by rewrite H23. Qed.

#[global] Instance only_files_refl ps : Reflexive (@only_files R ps).
Proof. by intros w. Qed.

#[global] Instance only_files_trans ps : Transitive (@only_files R ps).
Proof.
  intros w1 w2 w3 (Hf12 & Hr12 & Hs12) (Hf23 & Hr23 & Hs23). split_and!.
  - by transitivity w2.
  - by transitivity w2.
  - by transitivity w2.
Qed.

Lemma files_outside_mono (ps qs : list string) (w w' : World R) :
  ps ⊆ qs → files_outside ps w w' → files_outside qs w w'.
Proof. intros Hsub Hps p Hp. apply Hps. intros Hin. by apply Hp, Hsub. Qed.

Lemma same_files_outside (ps : list string) (w w' : World R) :
  same_files w w' → files_outside ps w w'.
Proof. intros Hsame p _. by rewrite Hsame. Qed.

Lemma write_file_outside (path : string) (data : bytes) :
  keeps (@files_outside R [path]) (write_file path data).
Proof.
  intros w r w' [= _ <-] p Hp. simpl. apply lookup_insert_ne.
  intros ->. apply Hp, list_elem_of_here.
Qed.

Lemma os_remove_outside (path : string) :
  keeps (@files_outside R [path]) (os_remove path).
Proof.
  intros w r w'. unfold os_remove.
  destruct (files w !! path); intros [= _ <-]; [|done].
  intros p Hp. simpl. apply lookup_delete_ne.
  intros ->. apply Hp, list_elem_of_here.
Qed.

Lemma read_file_same (path : string) :
  keeps (λ w w' : World R, w' = w) (read_file path).
Proof.
  intros w r w'. unfold read_file. by destruct (files w !! path); intros [= _ <-].
Qed.

End Frames.

(** ** Audio extraction and transcription *)

Section Media.
Context {R : Type} (E : Externals R).

Lemma extract_audio_run (video_path audio_path : string) (w : World R) :
  extract_audio E video_path audio_path w =
  match files w !! video_path with
  | None => (Ok false, w)
  | Some video =>
    match ffmpeg E video with
    | Converted wav => (Ok true, with_files <[audio_path := wav]> w)
    | Failed (Some part) => (Ok false, with_files <[audio_path := part]> w)
    | Failed None => (Ok false, w)
    end
  end.
Proof.
  unfold extract_audio, try_except, bind, run_ffmpeg, ret.
  destruct (files w !! video_path) as [video|]; [|done].
  by destruct (ffmpeg E video) as [wav|[part|]].
Qed.

Lemma transcribe_audio_run (audio_path model_size : string) (w : World R) :
  transcribe_audio E audio_path model_size w =
  (Ok match files w !! audio_path with
      | Some audio =>
        match whisper_translate E model_size audio with
        | Ok text => Some text
        | Raise _ => None
        end
      | None => None
      end, w).
Proof.
  unfold transcribe_audio, try_except, bind, read_file, lift, ret.
  destruct (files w !! audio_path) as [audio|]; [|done].
  by destruct (whisper_translate E model_size audio).
Qed.

(** X1. [extract_audio] never raises: it answers [True] exactly when the
    video file is there and the converter succeeds on it, and then the
    audio path holds the converted audio. *)
Theorem extract_audio_outcome (video_path audio_path : string)
    (w : World R) :
  ∃ ok w', extract_audio E video_path audio_path w = (Ok ok, w') ∧
    (ok = true ↔
     ∃ video wav, files w !! video_path = Some video ∧
                  ffmpeg E video = Converted wav ∧
                  files w' !! audio_path = Some wav).
Proof.
  rewrite extract_audio_run.
  destruct (files w !! video_path) as [video|] eqn:Hv.
  - destruct (ffmpeg E video) as [wav|[part|]] eqn:Hf; eexists _, _;
      (split; [done|]); split; try done.
    + intros _. exists video, wav. split_and!; [done..|].
      simpl. apply lookup_insert_eq.
    + intros (? & ? & [= <-] & ? & _). congruence.
    + intros (? & ? & [= <-] & ? & _). congruence.
  - eexists _, _. split; [done|]. split; [done|].
    intros (? & ? & ? & _). done.
Qed.

(** X2. [extract_audio] changes no file but the one at the audio path,
    and touches neither the random generator nor the stored results. *)
Theorem extract_audio_frame (video_path audio_path : string)
    (w w' : World R) (r : result bool) :
  extract_audio E video_path audio_path w = (r, w') →
  files_outside [audio_path] w w' ∧ rng w' = rng w ∧
  session_results w' = session_results w.
Proof.
  rewrite extract_audio_run.
  destruct (files w !! video_path) as [video|];
    [destruct (ffmpeg E video) as [wav|[part|]]|];
    intros [= _ <-]; (split; [|done]); try done;
    intros p Hp; simpl; apply lookup_insert_ne; intros ->;
    apply Hp, list_elem_of_here.
Qed.

(** X3. [transcribe_audio] never raises and leaves the world as it is; it
    gives a text exactly when the audio file is there and the speech model
    returns that text, and [None] in every other case. *)
Theorem transcribe_audio_outcome (audio_path model_size : string)
    (w : World R) :
  ∃ answer, transcribe_audio E audio_path model_size w = (Ok answer, w) ∧
    ∀ text, answer = Some text ↔
      ∃ audio, files w !! audio_path = Some audio ∧
               whisper_translate E model_size audio = Ok text.
Proof.
  rewrite transcribe_audio_run. eexists. split; [done|]. intros text.
  destruct (files w !! audio_path) as [audio|].
  - destruct (whisper_translate E model_size audio) as [t|e] eqn:Hwh.
    + split; [intros [= ->]; eauto | intros (? & [= <-] & ?); congruence].
    + split; [done | intros (? & [= <-] & ?); congruence].
  - split; [done | intros (? & ? & _); done].
Qed.

(** X4. What [extract_audio] writes is what [transcribe_audio] reads: after
    a successful extraction, the transcription is the answer of the speech
    model on the converted audio. *)
Theorem extract_then_transcribe (video_path audio_path model_size : string)
    (video wav : bytes) (w : World R) :
  files w !! video_path = Some video →
  ffmpeg E video = Converted wav →
  ∃ w', extract_audio E video_path audio_path w = (Ok true, w') ∧
        transcribe_audio E audio_path model_size w'
        = (Ok match whisper_translate E model_size wav with
              | Ok text => Some text
              | Raise _ => None
              end, w').
Proof.
  intros Hv Hf. rewrite extract_audio_run, Hv, Hf. eexists. split; [done|].
  rewrite transcribe_audio_run. simpl. by rewrite lookup_insert_eq.
Qed.

End Media.

(** ** The temporary file of a reference *)

Lemma pdf_not_txt (file_name : str) :
  endswith (u ".pdf") file_name = true → endswith (u ".txt") file_name = false.
Proof.
  unfold endswith. intros [post ->]%startswith_prefix. reflexivity.
Qed.

Lemma docx_not_txt_pdf (file_name : str) :
  endswith (u ".docx") file_name = true →
  endswith (u ".txt") file_name = false ∧
  endswith (u ".pdf") file_name = false.
Proof.
  unfold endswith. intros [post ->]%startswith_prefix. split; reflexivity.
Qed.

Section References.
Context {R : Type} (E : Externals R).

(** The world a parsed temporary file leaves: the file is removed after a
    successful parse and stays after a failed one. *)
Lemma temp_parse_run (path : string) (parse : bytes → result str)
    (data : bytes) (w : World R) :
  bind (write_file path data) (λ _,
    bind (read_file path) (λ data',
      bind (lift (parse data')) (λ text,
        bind (os_remove path) (λ _, ret text)))) w
  = match parse data with
    | Ok text => (Ok text, with_files (delete path) w)
    | Raise e => (Raise e, with_files <[path := data]> w)
    end.
Proof.
  unfold bind, write_file, read_file, lift, os_remove, ret, with_files.
  simpl. rewrite lookup_insert_eq. simpl.
  destruct (parse data) as [text|e]; [|done].
  simpl. rewrite lookup_insert_eq. simpl. by rewrite delete_insert_eq.
Qed.

(** X5. A reference named [*.pdf]: when the parser returns, the text is
    returned and no file is left at [temp_ref.pdf], not even one that was
    there before the call; when the parser raises, the exception leaves
    the function and the bytes of the upload stay at [temp_ref.pdf]. *)
Theorem read_reference_file_pdf (file : UploadedFile) (w : World R) :
  endswith (u ".pdf") (name file) = true →
  read_reference_file E file w
  = match extract_pdf_text E (getbuffer file) with
    | Ok text => (Ok text, with_files (delete "temp_ref.pdf") w)
    | Raise e =>
      (Raise e, with_files <["temp_ref.pdf" := getbuffer file]> w)
    end.
Proof.
  intros Hpdf. unfold read_reference_file.
  rewrite (pdf_not_txt _ Hpdf), Hpdf. apply temp_parse_run.
Qed.

(** X6. The same for a reference named [*.docx] and [temp_ref.docx]. *)
Theorem read_reference_file_docx (file : UploadedFile) (w : World R) :
  endswith (u ".docx") (name file) = true →
  read_reference_file E file w
  = match docx2txt_process E (getbuffer file) with
    | Ok text => (Ok text, with_files (delete "temp_ref.docx") w)
    | Raise e =>
      (Raise e, with_files <["temp_ref.docx" := getbuffer file]> w)
    end.
Proof.
  intros Hdocx. unfold read_reference_file.
  destruct (docx_not_txt_pdf _ Hdocx) as [-> ->]. rewrite Hdocx.
  apply temp_parse_run.
Qed.

Lemma read_reference_file_keeps (file : UploadedFile) :
  keeps (only_files temp_refs) (read_reference_file E file).
Proof.
  intros w r w'. unfold read_reference_file.
  destruct (endswith (u ".txt") (name file)); [by intros [= _ <-]|].
  destruct (endswith (u ".pdf") (name file)).
  { rewrite temp_parse_run.
    destruct (extract_pdf_text E (getbuffer file)); intros [= _ <-];
      (split; [|done]); intros p Hp; simpl;
      [apply lookup_delete_ne | apply lookup_insert_ne]; intros <-;
      apply Hp, list_elem_of_here. }
  destruct (endswith (u ".docx") (name file)); [|by intros [= _ <-]].
  rewrite temp_parse_run.
  destruct (docx2txt_process E (getbuffer file)); intros [= _ <-];
    (split; [|done]); intros p Hp; simpl;
    [apply lookup_delete_ne | apply lookup_insert_ne]; intros <-;
    apply Hp, list_elem_of_further, list_elem_of_here.
Qed.

(** X7. Whatever the file and the outcome, [read_reference_file] changes
    no file other than [temp_ref.pdf] and [temp_ref.docx], and touches
    neither the random generator nor the stored results. *)
Theorem read_reference_file_frame (file : UploadedFile) (w w' : World R)
    (r : result str) :
  read_reference_file E file w = (r, w') →
  files_outside ["temp_ref.pdf"; "temp_ref.docx"] w w' ∧
  rng w' = rng w ∧ session_results w' = session_results w.
Proof. apply read_reference_file_keeps. Qed.

End References.

(** ** The plagiarism check, reference by reference *)

Section Scores.
Context {R : Type} (E : Externals R).

(** The score that a reference contributes once it is loaded. *)
Lemma similarities_loop_scores transcript refs acc w l w' :
  similarities_loop E transcript refs acc w = (Ok l, w') →
  Forall (λ ref, ∃ t, reference_text E ref = Ok t) refs ∧
  ∃ texts, Forall2 (λ ref t, reference_text E ref = Ok t) refs texts ∧
           l = acc ++ map (calculate_similarity transcript) texts.
Proof.
  revert acc w. induction refs as [|ref refs IH]; intros acc w; simpl.
  - intros [= <- _]. split; [done|]. exists []. by rewrite app_nil_r.
  - unfold bind. pose proof (read_reference_file_fst E ref w) as Hfst.
    destruct (read_reference_file E ref w) as [[t|e] w1]; [|done].
    simpl in Hfst. intros (Hall & texts & Htexts & ->)%IH.
    split; [constructor; eauto|]. exists (t :: texts).
    split; [by constructor|]. by rewrite <- app_assoc.
Qed.

Lemma similarities_loop_keeps transcript refs acc :
  keeps (only_files temp_refs) (similarities_loop E transcript refs acc).
Proof.
  revert acc. induction refs as [|ref refs IH]; intros acc; simpl.
  - apply keeps_ret, _.
  - apply keeps_bind; [apply _ | apply read_reference_file_keeps | auto].
Qed.

Lemma texts_of_loaded (refs : list UploadedFile) :
  Forall (λ ref, ∃ t, reference_text E ref = Ok t) refs →
  ∃ texts, Forall2 (λ ref t, reference_text E ref = Ok t) refs texts.
Proof.
  induction 1 as [|ref refs [t Ht] _ [texts IH]].
  - by exists [].
  - exists (t :: texts). by constructor.
Qed.

(** With references, a returned score is the score of one of them and no
    reference scores higher. *)
Lemma check_plagiarism_scores transcript refs w s w' :
  refs ≠ [] →
  check_plagiarism E transcript refs w = (Ok s, w') →
  Forall (λ ref, ∃ t, reference_text E ref = Ok t) refs ∧
  (∃ ref t, ref ∈ refs ∧ reference_text E ref = Ok t ∧
            s = calculate_similarity transcript t) ∧
  (∀ ref t, ref ∈ refs → reference_text E ref = Ok t →
            (calculate_similarity transcript t <= s)%Q).
Proof.
  intros Hne.
  assert (Hcp : check_plagiarism E transcript refs w
    = bind (similarities_loop E transcript refs [])
        (λ similarities, match similarities with
           | first :: rest => ret (max_from first rest)
           | [] => bind (random_randint E 15 50) (λ n, ret (inject_Z n))
           end) w) by by destruct refs.
  rewrite Hcp. clear Hcp. unfold bind at 1.
  destruct (similarities_loop E transcript refs [] w) as [[l|e] w1] eqn:Hloop;
    [|done].
  apply similarities_loop_scores in Hloop as (Hall & texts & Htexts & ->).
  simpl.
  destruct (map (calculate_similarity transcript) texts)
    as [|first rest] eqn:Hmap.
  { apply fmap_nil_inv in Hmap as ->. apply Forall2_length in Htexts.
    by destruct refs. }
  intros [= <- _]. split; [done|]. split.
  - pose proof (max_from_elem first rest) as Hin. rewrite <- Hmap in Hin.
    apply list_elem_of_fmap in Hin as (t & Hs & Ht).
    apply list_elem_of_lookup in Ht as [i Hi].
    destruct (Forall2_lookup_r _ _ _ _ _ Htexts Hi) as (ref & Href & Hload).
    exists ref, t. split_and!; [by eapply list_elem_of_lookup_2|done..].
  - intros ref t Href Hload. apply max_from_upper. rewrite <- Hmap.
    apply list_elem_of_fmap. exists t. split; [done|].
    apply list_elem_of_lookup in Href as [i Hi].
    destruct (Forall2_lookup_l _ _ _ _ _ Htexts Hi) as (t' & Ht' & Hload').
    rewrite Hload in Hload'. injection Hload' as <-.
    by eapply list_elem_of_lookup_2.
Qed.

Lemma check_plagiarism_returns transcript refs w :
  Forall (λ ref, ∃ t, reference_text E ref = Ok t) refs →
  refs ≠ [] →
  ∃ s w', check_plagiarism E transcript refs w = (Ok s, w').
Proof.
  intros [texts Htexts]%texts_of_loaded Hne.
  destruct (similarities_loop_ok E transcript _ _ [] w Htexts) as [w' Hloop].
  destruct refs as [|ref refs]; [done|].
  unfold check_plagiarism, bind. rewrite Hloop. simpl.
  destruct texts as [|t texts]; [by apply Forall2_length in Htexts|].
  simpl. by eexists _, _.
Qed.

(** X8. With a reference or more, the plagiarism check never draws a
    random number: whether it returns or raises, the random generator and
    the stored results are as before, and no file has changed except
    [temp_ref.pdf] and [temp_ref.docx]. *)
Theorem check_plagiarism_frame (transcript : str)
    (reference_files : list UploadedFile) (w w' : World R) (r : result Q) :
  reference_files ≠ [] →
  check_plagiarism E transcript reference_files w = (r, w') →
  files_outside ["temp_ref.pdf"; "temp_ref.docx"] w w' ∧
  rng w' = rng w ∧ session_results w' = session_results w.
Proof.
  intros Hne. destruct reference_files as [|ref0 refs0]; [done|].
  unfold check_plagiarism. unfold bind at 1.
  destruct (similarities_loop E transcript (ref0 :: refs0) [] w)
    as [[l|e] w1] eqn:Hloop.
  - pose proof (similarities_loop_keeps _ _ _ _ _ _ Hloop) as Hkeeps.
    apply similarities_loop_scores in Hloop as (_ & texts & Htexts & ->).
    destruct texts as [|t texts]; [by apply Forall2_length in Htexts|].
    simpl. by intros [= _ <-].
  - intros [= _ <-]. apply (similarities_loop_keeps _ _ _ _ _ _ Hloop).
Qed.

(** X9. The order of the references does not matter: if the check returns
    a score for a list of references, it returns the same score for any
    rearrangement of the list. *)
Theorem check_plagiarism_order (transcript : str)
    (refs refs' : list UploadedFile) (w w' : World R) (s : Q) :
  refs ≠ [] → refs ≡ₚ refs' →
  check_plagiarism E transcript refs w = (Ok s, w') →
  ∃ s' w'', check_plagiarism E transcript refs' w = (Ok s', w'') ∧
            (s' == s)%Q.
Proof.
  intros Hne Hperm Hrun.
  assert (Hne' : refs' ≠ []).
  { intros ->. by apply Permutation_nil_r in Hperm. }
  destruct (check_plagiarism_scores _ _ _ _ _ Hne Hrun)
    as (Hall & (ref & t & Href & Ht & ->) & Hup).
  rewrite Hperm in Hall.
  destruct (check_plagiarism_returns transcript refs' w Hall Hne')
    as (s' & w'' & Hrun').
  exists s', w''. split; [done|].
  destruct (check_plagiarism_scores _ _ _ _ _ Hne' Hrun')
    as (_ & (ref' & t' & Href' & Ht' & ->) & Hup').
  apply Qle_antisym.
  - apply (Hup ref'); [by rewrite Hperm | done].
  - apply (Hup' ref); [by rewrite <- Hperm | done].
Qed.

(** X10. More references never lower the score: if every reference of
    one run is among the references of another, the score of the first
    run is at most the score of the second. *)
Theorem check_plagiarism_more_references (transcript : str)
    (refs refs' : list UploadedFile) (w1 w1' w2 w2' : World R) (s s' : Q) :
  refs ≠ [] → refs ⊆ refs' →
  check_plagiarism E transcript refs w1 = (Ok s, w1') →
  check_plagiarism E transcript refs' w2 = (Ok s', w2') →
  (s <= s')%Q.
Proof.
  intros Hne Hsub Hrun Hrun'.
  assert (Hne' : refs' ≠ []).
  { destruct refs as [|ref refs]; [done|]. intros ->.
    by apply (elem_of_nil ref), Hsub, list_elem_of_here. }
  destruct (check_plagiarism_scores _ _ _ _ _ Hne Hrun)
    as (_ & (ref & t & Href & Ht & ->) & _).
  destruct (check_plagiarism_scores _ _ _ _ _ Hne' Hrun') as (_ & _ & Hup').
  apply (Hup' ref); [by apply Hsub | done].
Qed.

End Scores.

(** ** The screener and the risk level *)

Section Hits.
Context {R : Type} (E : Externals R).

Lemma fake_sensitive_check_elem (text k : str) :
  k ∈ fake_sensitive_check E text ↔
  k ∈ keywords ∧ contains (str_lower E k) (str_lower E text) = true.
Proof. unfold fake_sensitive_check. by rewrite list_elem_of_filter, (comm and). Qed.

(** X11. A longer transcript has at least the same hits: when the
    lower-cased form of one text occurs inside the lower-cased form of
    another, every hit of the first is a hit of the second. *)
Theorem fake_sensitive_check_monotone (text1 text2 : str) :
  (∃ pre post, str_lower E text2 = pre ++ str_lower E text1 ++ post) →
  fake_sensitive_check E text1 ⊆ fake_sensitive_check E text2.
Proof.
  intros (pre & post & Htext) k.
  rewrite !fake_sensitive_check_elem, !contains_slice.
  intros [Hk (pre' & post' & Hin)]. split; [done|].
  exists (pre ++ pre'), (post' ++ post).
  rewrite Htext, Hin. by rewrite <- !app_assoc.
Qed.

(** X12. One keyword inside the transcript is enough for the highest risk
    level, whatever the plagiarism score. *)
Theorem keyword_forces_high (text k : str) (plag_percent : Q) :
  k ∈ keywords →
  (∃ pre post, str_lower E text = pre ++ str_lower E k ++ post) →
  risk plag_percent (fake_sensitive_check E text) = High.
Proof.
  intros Hk Hin.
  assert (Hhit : k ∈ fake_sensitive_check E text).
  { apply fake_sensitive_check_elem. split; [done|]. by apply contains_slice. }
  destruct (risk_cases plag_percent (fake_sensitive_check E text))
    as [[Hrisk _]|[(_ & _ & _ & Hnil)|(_ & _ & Hnil)]]; [done|..];
    rewrite Hnil in Hhit; by apply elem_of_nil in Hhit.
Qed.

(** X13. The "Abusive Words" metric counts distinct keywords, so it never
    exceeds the 61 keywords of the list. *)
Theorem abusive_words_bound (text : str) :
  abusive_words (fake_sensitive_check E text) ≤ 61.
Proof.
  unfold abusive_words, fake_sensitive_check.
  etrans; [apply length_filter|]. by vm_compute.
Qed.

End Hits.

(** ** The messages of the Results tab *)

(** X14. The risk level is never milder than the plagiarism message: with
    no sensitive word the two agree ([High] with the error, [Medium] with
    the warning, [Low] with the success message); with a sensitive word
    the level is [High] even when the score is at most 40 and the message
    says that the content appears original and safe. *)
Theorem risk_and_plagiarism_message (plag_percent : Q)
    (sensitive_words : list str) :
  banner_rank (plagiarism_message plag_percent).1
    ≤ risk_rank (risk plag_percent sensitive_words) ∧
  (sensitive_words = [] →
   banner_rank (plagiarism_message plag_percent).1
   = risk_rank (risk plag_percent sensitive_words)) ∧
  (sensitive_words ≠ [] → (plag_percent <= 40)%Q →
   risk plag_percent sensitive_words = High ∧
   (plagiarism_message plag_percent).1 = StSuccess).
Proof.
  unfold plagiarism_message, risk.
  destruct (Qltb 75 plag_percent) eqn:H75; simpl.
  { split_and!; [done..|]. apply Qltb_lt in H75. intros _ ?. lra. }
  destruct (Qltb 40 plag_percent) eqn:H40; simpl.
  - apply Qltb_lt in H40. case_bool_decide; simpl; split_and!;
      try done; try lia; intros _ ?; lra.
  - case_bool_decide; simpl; split_and!; try done; lia.
Qed.

Lemma join_slice (sep x : str) (parts : list str) :
  x ∈ parts → ∃ pre post, join sep parts = pre ++ x ++ post.
Proof.
  induction parts as [|p parts IH]; [by intros ?%elem_of_nil|].
  intros [->|Hx]%elem_of_cons.
  - destruct parts as [|p' parts]; simpl.
    + exists [], []. by rewrite app_nil_r.
    + by exists [], (sep ++ join sep (p' :: parts)).
  - destruct (IH Hx) as (pre & post & Hjoin).
    destruct parts as [|p' parts]; [by apply elem_of_nil in Hx|].
    change (join sep (p :: p' :: parts))
      with (p ++ sep ++ join sep (p' :: parts)).
    rewrite Hjoin. exists (p ++ sep ++ pre), post. by rewrite <- !app_assoc.
Qed.

(** X15. The message about sensitive words is a warning exactly when
    there is a hit, and the warning spells out every hit. *)
Theorem sensitive_message_lists_hits (sensitive_words : list str) :
  ((sensitive_message sensitive_words).1 = StWarning ↔
   sensitive_words ≠ []) ∧
  ((sensitive_message sensitive_words).1 = StSuccess ↔
   sensitive_words = []) ∧
  ∀ k, k ∈ sensitive_words →
       ∃ pre post, (sensitive_message sensitive_words).2 = pre ++ k ++ post.
Proof.
  destruct sensitive_words as [|k0 hits]; unfold sensitive_message;
    cbn [fst snd].
  - split_and!; [done..|]. by intros k ?%elem_of_nil.
  - split_and!; [done..|]. intros k Hk.
    destruct (join_slice (u ", ") k (k0 :: hits) Hk) as (pre & post & Hjoin).
    rewrite Hjoin. eexists (_ ++ pre), post. by rewrite <- app_assoc.
Qed.

(** X16. The transcript preview of the Upload tab is the whole transcript
    when it has at most 1500 characters; otherwise it is the first 1500
    characters followed by three dots, 1503 characters in all. The
    Results tab shows the first 2000 characters, and the whole transcript
    when it is not longer. *)
Theorem transcript_previews (transcript : str) :
  (length transcript ≤ 1500 → transcript_preview transcript = transcript) ∧
  (1500 < length transcript →
   transcript_preview transcript = take 1500 transcript ++ u "..." ∧
   length (transcript_preview transcript) = 1503) ∧
  transcript_area transcript `prefix_of` transcript ∧
  length (transcript_area transcript) = length transcript `min` 2000 ∧
  (length transcript ≤ 2000 → transcript_area transcript = transcript).
Proof.
  unfold transcript_preview, transcript_area. split_and!.
  - intros Hlen. rewrite take_ge by done.
    destruct (Nat.ltb_spec 1500 (length transcript)); [lia|].
    apply app_nil_r.
  - intros Hlen. destruct (Nat.ltb_spec 1500 (length transcript)); [|lia].
    split; [done|]. rewrite length_app, length_take.
    change (length (u "...")) with 3. lia.
  - apply prefix_take.
  - rewrite length_take. lia.
  - intros Hlen. by apply take_ge.
Qed.

(** ** The handler, stage by stage *)

(** Membership and inclusion goals on the lists of temporary paths. *)
Ltac paths :=
  unfold temp_paths, temp_refs; repeat intros ?;
  repeat match goal with
         | H : _ ∈ [] |- _ => by apply elem_of_nil in H
         | H : _ ∈ _ :: _ |- _ =>
           apply elem_of_cons in H as [H|H]; [try discriminate H; subst|]
         end;
  rewrite ?elem_of_cons; intuition congruence.

Section Run.
Context {R : Type} (E : Externals R).

Lemma score_stage_keeps_plag (transcript : str)
    (reference_files : list UploadedFile) :
  keeps (files_outside temp_refs)
    (check_plagiarism E transcript reference_files).
Proof.
  destruct reference_files as [|ref refs].
  - intros w r w'. simpl. unfold bind, random_randint.
    destruct (randint E (rng w) 15 50). by intros [= _ <-].
  - unfold check_plagiarism. apply keeps_bind; [apply _| |].
    + eapply keeps_weaken; [|apply similarities_loop_keeps].
      by intros w w' [? _].
    + intros [|first rest]; [|apply keeps_ret, _].
      intros w r w'. unfold bind, random_randint.
      destruct (randint E (rng w) 15 50). by intros [= _ <-].
Qed.

(** The scoring stage of the handler, run on a transcript. *)
Lemma score_stage_keeps (transcript : option str)
    (reference_files : list UploadedFile) :
  keeps (files_outside temp_refs)
    (match transcript with
     | Some (c :: cs) =>
       bind (check_plagiarism E (c :: cs) reference_files) (λ plag_percent,
         set_results {| plag_percent := plag_percent;
                        sensitive_words := fake_sensitive_check E (c :: cs);
                        transcript := c :: cs |})
     | Some [] | None => ret tt
     end).
Proof.
  destruct transcript as [[|c cs]|]; try apply keeps_ret, _.
  apply keeps_bind; [apply _|apply score_stage_keeps_plag|].
  intros s w r w' [= _ <-]. done.
Qed.

(** The two removals that end a run after an extraction: they succeed
    when the video copy is there. *)
Lemma remove_media_returns (w : World R) :
  is_Some (files w !! "temp_video.mp4") →
  bind (os_remove "temp_video.mp4") (λ _,
    bind (os_path_exists "temp_audio.wav") (λ audio_exists,
      if audio_exists then os_remove "temp_audio.wav" else ret tt)) w
  = (Ok tt,
     with_files (λ m, delete "temp_audio.wav" (delete "temp_video.mp4" m)) w).
Proof.
  intros [video Hv].
  unfold bind, os_remove, os_path_exists, ret, with_files. rewrite Hv. simpl.
  rewrite lookup_delete_ne by done.
  destruct (files w !! "temp_audio.wav") as [audio|] eqn:Ha; simpl.
  - by rewrite lookup_delete_ne, Ha by done.
  - by rewrite (delete_id (delete _ _)) by by rewrite lookup_delete_ne.
Qed.

(** The handler after the copy of the upload and the extraction. *)
Lemma run_full_check_stages (uploaded_video : bytes) (model_choice : string)
    (reference_files : list UploadedFile) (w : World R) :
  run_full_check E uploaded_video model_choice reference_files w =
  let w1 := with_files <["temp_video.mp4" := uploaded_video]> w in
  match ffmpeg E uploaded_video with
  | Converted wav =>
    let w2 := with_files <["temp_audio.wav" := wav]> w1 in
    bind (match whisper_translate E model_choice wav with
          | Ok (c :: cs) =>
            bind (check_plagiarism E (c :: cs) reference_files)
              (λ plag_percent,
                 set_results
                   {| plag_percent := plag_percent;
                      sensitive_words := fake_sensitive_check E (c :: cs);
                      transcript := c :: cs |})
          | Ok [] | Raise _ => ret tt
          end)
      (λ _, bind (os_remove "temp_video.mp4") (λ _,
         bind (os_path_exists "temp_audio.wav") (λ audio_exists,
           if audio_exists then os_remove "temp_audio.wav" else ret tt))) w2
  | Failed (Some part) => (Ok tt, with_files <["temp_audio.wav" := part]> w1)
  | Failed None => (Ok tt, w1)
  end.
Proof.
  unfold run_full_check. unfold bind at 1 2. unfold write_file at 1.
  rewrite extract_audio_run. cbn [files with_files].
  rewrite lookup_insert_eq.
  destruct (ffmpeg E uploaded_video) as [wav|[part|]]; [|done..].
  cbv zeta. unfold bind at 1. rewrite transcribe_audio_run.
  cbn [files with_files]. rewrite lookup_insert_eq.
  by destruct (whisper_translate E model_choice wav) as [[|c cs]|e].
Qed.

Lemma remove_media_keeps :
  keeps (@files_outside R ["temp_video.mp4"; "temp_audio.wav"])
    (bind (os_remove "temp_video.mp4") (λ _,
       bind (os_path_exists "temp_audio.wav") (λ audio_exists,
         if audio_exists then os_remove "temp_audio.wav" else ret tt))).
Proof.
  apply keeps_bind; [apply _| |intros _; apply keeps_bind; [apply _| |]].
  - eapply keeps_weaken; [|apply os_remove_outside].
    intros w w'. apply files_outside_mono. paths.
  - by intros w r w' [= _ <-].
  - intros [|]; [|apply keeps_ret, _].
    eapply keeps_weaken; [|apply os_remove_outside].
    intros w w'. apply files_outside_mono. paths.
Qed.

Lemma similarities_loop_raise_source transcript refs acc w e w' :
  similarities_loop E transcript refs acc w = (Raise e, w') →
  ∃ ref, ref ∈ refs ∧ reference_text E ref = Raise e.
Proof.
  revert acc w. induction refs as [|ref refs IH]; intros acc w; simpl; [done|].
  unfold bind. pose proof (read_reference_file_fst E ref w) as Hfst.
  destruct (read_reference_file E ref w) as [[t|e'] w1]; simpl in Hfst.
  - intros (ref' & Hin & Href')%IH. exists ref'.
    split; [by apply list_elem_of_further | done].
  - intros [= -> _]. exists ref. split; [apply list_elem_of_here | done].
Qed.

Lemma check_plagiarism_raise_source transcript refs w e w' :
  check_plagiarism E transcript refs w = (Raise e, w') →
  ∃ ref, ref ∈ refs ∧ reference_text E ref = Raise e.
Proof.
  destruct refs as [|ref0 refs0].
  { simpl. unfold bind, random_randint.
    by destruct (randint E (rng w) 15 50). }
  unfold check_plagiarism. unfold bind at 1.
  destruct (similarities_loop E transcript (ref0 :: refs0) [] w)
    as [[l|e'] w1] eqn:Hloop.
  - destruct l as [|first rest]; [|done].
    unfold bind, random_randint. by destruct (randint E (rng w1) 15 50).
  - intros [= -> _]. by eapply similarities_loop_raise_source.
Qed.

(** X17. Whatever its outcome, a run of the handler changes no file other
    than the four temporary files: the files of the user in the working
    directory are as before. *)
Theorem run_full_check_frame (uploaded_video : bytes) (model_choice : string)
    (reference_files : list UploadedFile) (w w' : World R)
    (r : result unit) :
  run_full_check E uploaded_video model_choice reference_files w = (r, w') →
  ∀ p, p ∉ temp_paths → files w' !! p = files w !! p.
Proof.
  rewrite run_full_check_stages. cbv zeta.
  assert (Hcopy : ∀ data, files_outside temp_paths w
            (with_files <["temp_video.mp4" := data]> w)).
  { intros data p Hp. simpl. apply lookup_insert_ne. intros <-.
    apply Hp. paths. }
  assert (Haudio : ∀ data (w0 : World R), files_outside temp_paths w0
            (with_files <["temp_audio.wav" := data]> w0)).
  { intros data w0 p Hp. simpl. apply lookup_insert_ne. intros <-.
    apply Hp. paths. }
  destruct (ffmpeg E uploaded_video) as [wav|[part|]].
  - intros Hrun. change (files_outside temp_paths w w').
    etrans; [apply Hcopy|]. etrans; [apply Haudio|].
    eapply (keeps_bind (files_outside temp_paths));
      [apply _| |intros ?|exact Hrun].
    + pose proof (score_stage_keeps
        (match whisper_translate E model_choice wav with
         | Ok t => Some t | Raise _ => None end) reference_files) as Hk.
      eapply keeps_weaken in Hk.
      * destruct (whisper_translate E model_choice wav) as [[|c cs]|e];
          exact Hk.
      * intros w0 w1. apply files_outside_mono. paths.
    + eapply keeps_weaken; [|apply remove_media_keeps].
      intros w0 w1. apply files_outside_mono. paths.
  - intros [= _ <-]. change (files_outside temp_paths w
      (with_files <["temp_audio.wav" := part]>
         (with_files <["temp_video.mp4" := uploaded_video]> w))).
    etrans; [apply Hcopy | apply Haudio].
  - intros [= _ <-]. apply Hcopy.
Qed.

(** X18. The only exceptions that leave the handler are those of the
    reference parsers: when a run raises, one of the references raises
    that exception on loading. *)
Theorem run_full_check_raises (uploaded_video : bytes)
    (model_choice : string) (reference_files : list UploadedFile)
    (w w' : World R) (e : exn) :
  run_full_check E uploaded_video model_choice reference_files w
  = (Raise e, w') →
  ∃ ref, ref ∈ reference_files ∧
         ∀ w0, (read_reference_file E ref w0).1 = Raise e.
Proof.
  rewrite run_full_check_stages. cbv zeta.
  destruct (ffmpeg E uploaded_video) as [wav|[part|]]; [|done..].
  set (w2 := with_files <["temp_audio.wav" := wav]> _).
  assert (Hvideo : is_Some (files w2 !! "temp_video.mp4")).
  { exists uploaded_video. simpl.
    by rewrite lookup_insert_ne, lookup_insert_eq. }
  unfold bind at 1.
  destruct (whisper_translate E model_choice wav) as [[|c cs]|e0];
    try (unfold ret at 1; by rewrite remove_media_returns).
  unfold bind at 1.
  destruct (check_plagiarism E (c :: cs) reference_files w2)
    as [[s|e1] w3] eqn:Hcp.
  - unfold set_results. rewrite remove_media_returns; [done|].
    assert (Hframe : files_outside temp_refs w2 w3).
    { revert Hcp. apply (score_stage_keeps_plag). }
    simpl. rewrite Hframe; [done|]. paths.
  - intros [= -> _].
    destruct (check_plagiarism_raise_source _ _ _ _ _ Hcp) as (ref & ? & ?).
    exists ref. split; [done|]. intros w0.
    by rewrite read_reference_file_fst.
Qed.

End Run.

(** ** The handler, run by run *)

Section Runs.
Context {R : Type} (E : Externals R).

Lemma media_removed (m : gmap string bytes) (video wav : bytes) :
  delete "temp_audio.wav" (delete "temp_video.mp4"
    (<["temp_audio.wav" := wav]> (<["temp_video.mp4" := video]> m)))
  = delete "temp_audio.wav" (delete "temp_video.mp4" m).
Proof.
  apply map_eq. intros p.
  destruct (decide (p = "temp_audio.wav")) as [->|];
    [by rewrite !lookup_delete_eq|].
  rewrite !(lookup_delete_ne _ "temp_audio.wav") by done.
  destruct (decide (p = "temp_video.mp4")) as [->|];
    [by rewrite !lookup_delete_eq|].
  by rewrite !lookup_delete_ne, !lookup_insert_ne by done.
Qed.

(** X19. When the converter succeeds and the speech model fails, or gives
    an empty transcript, the handler returns normally: nothing is scored,
    the stored results and the random generator are as before, and the
    video copy and the audio file are gone. *)
Theorem run_full_check_no_transcript (uploaded_video wav : bytes)
    (model_choice : string) (reference_files : list UploadedFile)
    (w : World R) :
  ffmpeg E uploaded_video = Converted wav →
  whisper_translate E model_choice wav = Ok [] ∨
  (∃ e, whisper_translate E model_choice wav = Raise e) →
  run_full_check E uploaded_video model_choice reference_files w
  = (Ok tt,
     with_files (λ m, delete "temp_audio.wav" (delete "temp_video.mp4" m)) w).
Proof.
  intros Hconv Hwhisper. rewrite run_full_check_stages, Hconv. cbv zeta.
  set (w2 := with_files _ (with_files _ w)).
  assert (Hskip : match whisper_translate E model_choice wav with
                  | Ok (c :: cs) =>
                    bind (check_plagiarism E (c :: cs) reference_files)
                      (λ plag_percent,
                         set_results
                           {| plag_percent := plag_percent;
                              sensitive_words :=
                                fake_sensitive_check E (c :: cs);
                              transcript := c :: cs |})
                  | Ok [] | Raise _ => ret tt
                  end = ret tt).
  { by destruct Hwhisper as [->|[e ->]]. }
  rewrite Hskip. unfold bind at 1, ret at 1.
  rewrite remove_media_returns.
  - unfold w2, with_files. simpl. by rewrite media_removed.
  - exists uploaded_video. simpl.
    by rewrite lookup_insert_ne, lookup_insert_eq.
Qed.

(** X20. When the converter fails, the handler returns normally after the
    copy of the upload: no transcription is attempted, and the stored
    results (those of an earlier run, if any) and the random generator are
    as before. *)
Theorem run_full_check_no_audio (uploaded_video : bytes)
    (model_choice : string) (reference_files : list UploadedFile)
    (partial : option bytes) (w : World R) :
  ffmpeg E uploaded_video = Failed partial →
  ∃ w', run_full_check E uploaded_video model_choice reference_files w
        = (Ok tt, w') ∧
        session_results w' = session_results w ∧ rng w' = rng w ∧
        files w' !! "temp_audio.wav"
        = match partial with
          | Some part => Some part
          | None => files w !! "temp_audio.wav"
          end.
Proof.
  intros Hfail. rewrite run_full_check_stages, Hfail. cbv zeta.
  destruct partial as [part|]; eexists; (split; [done|]); simpl;
    split_and!; try done.
  - apply lookup_insert_eq.
  - by apply lookup_insert_ne.
Qed.

Lemma similarities_loop_temp_refs transcript refs acc w l w' p :
  similarities_loop E transcript refs acc w = (Ok l, w') →
  p ∈ temp_refs → files w !! p = None → files w' !! p = None.
Proof.
  intros Hloop Hp. revert acc w Hloop.
  induction refs as [|ref refs IH]; intros acc w; simpl.
  - by intros [= _ <-].
  - unfold bind.
    destruct (read_reference_file E ref w) as [[t|e] w1] eqn:Href; [|done].
    intros Hloop Hnone. apply (IH _ _ Hloop). revert Href.
    unfold read_reference_file.
    destruct (endswith (u ".txt") (name ref)); [by intros [= _ <-]|].
    destruct (endswith (u ".pdf") (name ref)).
    { rewrite temp_parse_run.
      destruct (extract_pdf_text E (getbuffer ref)); [|done].
      intros [= _ <-]. simpl.
      destruct (decide (p = "temp_ref.pdf")) as [->|].
      - apply lookup_delete_eq.
      - by rewrite lookup_delete_ne. }
    destruct (endswith (u ".docx") (name ref)); [|by intros [= _ <-]].
    rewrite temp_parse_run.
    destruct (docx2txt_process E (getbuffer ref)); [|done].
    intros [= _ <-]. simpl.
    destruct (decide (p = "temp_ref.docx")) as [->|].
    + apply lookup_delete_eq.
    + by rewrite lookup_delete_ne.
Qed.

Lemma similarities_loop_fst transcript refs acc (w1 w2 : World R) :
  (similarities_loop E transcript refs acc w1).1
  = (similarities_loop E transcript refs acc w2).1.
Proof.
  revert acc w1 w2. induction refs as [|ref refs IH]; intros acc w1 w2;
    simpl; [done|]. unfold bind.
  pose proof (read_reference_file_fst E ref w1) as H1.
  pose proof (read_reference_file_fst E ref w2) as H2.
  destruct (read_reference_file E ref w1) as [r1 w1'],
    (read_reference_file E ref w2) as [r2 w2']. simpl in *. subst.
  destruct (reference_text E ref); [apply IH | done].
Qed.

(** The value of the plagiarism check depends on the world through the
    random generator only. *)
Lemma check_plagiarism_fst transcript refs (w1 w2 : World R) :
  rng w1 = rng w2 →
  (check_plagiarism E transcript refs w1).1
  = (check_plagiarism E transcript refs w2).1.
Proof.
  intros Hrng. destruct refs as [|ref0 refs0].
  - simpl. unfold bind, random_randint. rewrite Hrng.
    by destruct (randint E (rng w2) 15 50).
  - unfold check_plagiarism. unfold bind at 1 3.
    pose proof (similarities_loop_fst transcript (ref0 :: refs0) [] w1 w2)
      as Hfst.
    destruct (similarities_loop E transcript (ref0 :: refs0) [] w1)
      as [[l1|e1] w1'] eqn:H1,
      (similarities_loop E transcript (ref0 :: refs0) [] w2)
      as [[l2|e2] w2'] eqn:H2; simpl in Hfst; try done.
    + injection Hfst as ->.
      apply similarities_loop_scores in H1 as (_ & texts & Htexts & ->).
      destruct texts; [by apply Forall2_length in Htexts | done].
    + by injection Hfst as ->.
Qed.

(** X21. A run in which every stage succeeds: the handler returns
    normally; it stores the score of the plagiarism check, the hits of the
    screener and the transcript; the video copy and the audio file are
    gone; and when the working directory held no temporary file before
    the run, its content after the run is what it was. *)
Theorem run_full_check_complete (uploaded_video wav : bytes)
    (model_choice : string) (reference_files : list UploadedFile)
    (c : N) (cs : str) (w : World R) :
  ffmpeg E uploaded_video = Converted wav →
  whisper_translate E model_choice wav = Ok (c :: cs) →
  (∀ ref, ref ∈ reference_files →
          ∃ t, ∀ w0, (read_reference_file E ref w0).1 = Ok t) →
  ∃ s w', run_full_check E uploaded_video model_choice reference_files w
          = (Ok tt, w') ∧
    (check_plagiarism E (c :: cs) reference_files w).1 = Ok s ∧
    session_results w'
    = Some {| plag_percent := s;
              sensitive_words := fake_sensitive_check E (c :: cs);
              transcript := c :: cs |} ∧
    files w' !! "temp_video.mp4" = None ∧
    files w' !! "temp_audio.wav" = None ∧
    (no_temp_files w → files w' = files w).
Proof.
  intros Hconv Hwhisper Hrefs.
  rewrite run_full_check_stages, Hconv, Hwhisper. cbv zeta.
  set (w2 := with_files _ (with_files _ w)).
  assert (Hload : Forall (λ ref, ∃ t, reference_text E ref = Ok t)
                    reference_files).
  { apply Forall_forall. intros ref [t Ht]%Hrefs. exists t.
    by rewrite <- (read_reference_file_fst E ref w). }
  assert (Hcp : ∃ s w3,
    check_plagiarism E (c :: cs) reference_files w2 = (Ok s, w3)).
  { destruct reference_files as [|ref0 refs0].
    - simpl. unfold bind, random_randint.
      destruct (randint E (rng w2) 15 50). by eexists _, _.
    - by apply check_plagiarism_returns. }
  destruct Hcp as (s & w3 & Hcp).
  pose proof (score_stage_keeps_plag E _ _ _ _ _ Hcp) as Hframe.
  assert (Hvideo : files w3 !! "temp_video.mp4" = Some uploaded_video).
  { rewrite Hframe by paths. simpl.
    by rewrite lookup_insert_ne, lookup_insert_eq. }
  assert (Haudio : files w3 !! "temp_audio.wav" = Some wav).
  { rewrite Hframe by paths. simpl. by rewrite lookup_insert_eq. }
  unfold bind at 1 2. rewrite Hcp. unfold set_results.
  rewrite remove_media_returns by (simpl; eauto).
  exists s. eexists. split; [done|]. split_and!.
  - rewrite (check_plagiarism_fst _ _ w w2) by done. by rewrite Hcp.
  - done.
  - simpl. by rewrite lookup_delete_ne, lookup_delete_eq.
  - simpl. by rewrite lookup_delete_eq.
  - intros Hclean. simpl. apply map_eq. intros p.
    destruct (decide (p = "temp_audio.wav")) as [->|Ha].
    { rewrite lookup_delete_eq. symmetry. apply Hclean. paths. }
    rewrite lookup_delete_ne by done.
    destruct (decide (p = "temp_video.mp4")) as [->|Hv].
    { rewrite lookup_delete_eq. symmetry. apply Hclean. paths. }
    rewrite lookup_delete_ne by done.
    destruct (decide (p ∈ temp_refs)) as [Hp|Hp].
    + assert (Hnone : files w2 !! p = None).
      { simpl. rewrite !lookup_insert_ne by done. apply Hclean.
        revert Hp. paths. }
      rewrite (Hclean p) by (revert Hp; paths).
      destruct reference_files as [|ref0 refs0].
      * revert Hcp. simpl. unfold bind, random_randint.
        destruct (randint E (rng w2) 15 50). by intros [= _ <-].
      * revert Hcp. unfold check_plagiarism. unfold bind at 1.
        destruct (similarities_loop E (c :: cs) (ref0 :: refs0) [] w2)
          as [[l|e] w4] eqn:Hloop; [|done].
        pose proof (similarities_loop_temp_refs _ _ _ _ _ _ _ Hloop Hp Hnone).
        apply similarities_loop_scores in Hloop as (_ & texts & Htexts & ->).
        destruct texts; [by apply Forall2_length in Htexts|].
        by intros [= _ <-].
    + rewrite Hframe by done. simpl. by rewrite !lookup_insert_ne.
Qed.

(** X22. With no reference and no sensitive word nothing can make the
    risk level [High]: the score is the random draw, at most 50, so the
    level is [Low] or [Medium]. *)
Theorem no_reference_never_high (transcript : str) (w w' : World R) (s : Q) :
  randint_in_range E →
  check_plagiarism E transcript [] w = (Ok s, w') →
  risk s [] ≠ High ∧ (risk s [] = Medium ↔ (40 < s)%Q).
Proof.
  intros Hrand. simpl. unfold bind.
  destruct (random_randint_run E 15 50 w) as [w1 ->]. unfold ret.
  intros [= <- _].
  pose proof (Hrand (rng w) 15 50 ltac:(lia))%Z as [_ Hhi].
  assert (Hs : (inject_Z (randint E (rng w) 15 50).1 <= 50)%Q).
  { change 50%Q with (inject_Z 50). by rewrite <- Zle_Qle. }
  destruct (risk_cases (inject_Z (randint E (rng w) 15 50).1) [])
    as [[_ [?|?]]|[(-> & ? & _)|(-> & ? & _)]]; try done; try lra.
  split; [done|]. split; [done | intros; lra].
Qed.

End Runs.

(** ** The further properties on examples *)

Lemma extract_audio_frame_witness :
  files_outside ["temp_audio.wav"] Scenario.uploaded_world
    (with_files <["temp_audio.wav" := Demo.spoken "a b"]>
       Scenario.uploaded_world) ∧
  rng (with_files <["temp_audio.wav" := Demo.spoken "a b"]>
         Scenario.uploaded_world) = rng Scenario.uploaded_world ∧
  session_results (with_files <["temp_audio.wav" := Demo.spoken "a b"]>
                     Scenario.uploaded_world)
  = session_results Scenario.uploaded_world.
Proof.
  apply (extract_audio_frame Demo.externals "temp_video.mp4"
           "temp_audio.wav" Scenario.uploaded_world _ (Ok true)).
  by vm_compute.
Defined.

Lemma extract_then_transcribe_witness :
  ∃ w', extract_audio Demo.externals "temp_video.mp4" "temp_audio.wav"
          Scenario.uploaded_world = (Ok true, w') ∧
        transcribe_audio Demo.externals "temp_audio.wav" "tiny" w'
        = (Ok match whisper_translate Demo.externals "tiny"
                      (Demo.spoken "a b") with
              | Ok text => Some text
              | Raise _ => None
              end, w').
Proof.
  apply (extract_then_transcribe Demo.externals "temp_video.mp4"
           "temp_audio.wav" "tiny" (Demo.spoken "a b") (Demo.spoken "a b")
           Scenario.uploaded_world); by vm_compute.
Defined.

Lemma read_reference_file_pdf_witness :
  read_reference_file Demo.externals Scenario.copy_pdf Scenario.busy_world
  = match extract_pdf_text Demo.externals (getbuffer Scenario.copy_pdf) with
    | Ok text =>
      (Ok text, with_files (delete "temp_ref.pdf") Scenario.busy_world)
    | Raise e =>
      (Raise e, with_files <["temp_ref.pdf" := getbuffer Scenario.copy_pdf]>
                  Scenario.busy_world)
    end.
Proof.
  apply (read_reference_file_pdf Demo.externals Scenario.copy_pdf
           Scenario.busy_world). by vm_compute.
Defined.

(** The file that was at [temp_ref.pdf] before the call is lost. *)
Example read_reference_file_pdf_clobbers :
  files Scenario.busy_world !! "temp_ref.pdf"
  = Some (Demo.encode_ascii "left over") ∧
  read_reference_file Demo.externals Scenario.copy_pdf Scenario.busy_world
  = (Ok (u "a b"),
     {| files := {[ "thesis.txt" := Demo.encode_ascii "my thesis" ]};
        rng := 7%Z; session_results := None |}).
Proof. split; by vm_compute. Qed.

Lemma read_reference_file_docx_witness :
  read_reference_file Demo.externals Scenario.report_docx Scenario.busy_world
  = match docx2txt_process Demo.externals
            (getbuffer Scenario.report_docx) with
    | Ok text =>
      (Ok text, with_files (delete "temp_ref.docx") Scenario.busy_world)
    | Raise e =>
      (Raise e,
       with_files <["temp_ref.docx" := getbuffer Scenario.report_docx]>
         Scenario.busy_world)
    end.
Proof.
  apply (read_reference_file_docx Demo.externals Scenario.report_docx
           Scenario.busy_world). by vm_compute.
Defined.

Lemma read_reference_file_frame_witness :
  files_outside ["temp_ref.pdf"; "temp_ref.docx"] Scenario.busy_world
    (with_files <["temp_ref.pdf" := getbuffer Demo.notes_pdf]>
       Scenario.busy_world) ∧
  rng (with_files <["temp_ref.pdf" := getbuffer Demo.notes_pdf]>
         Scenario.busy_world) = rng Scenario.busy_world ∧
  session_results (with_files <["temp_ref.pdf" := getbuffer Demo.notes_pdf]>
                     Scenario.busy_world)
  = session_results Scenario.busy_world.
Proof.
  apply (read_reference_file_frame Demo.externals Demo.notes_pdf
           Scenario.busy_world _ (Raise (ExternalError "pdfminer"))).
  by vm_compute.
Defined.

Lemma read_reference_file_plain_witness :
  ∃ text, read_reference_file Demo.externals Scenario.scan_PDF
            Scenario.busy_world = (Ok text, Scenario.busy_world).
Proof.
  apply (read_reference_file_plain Demo.externals Scenario.scan_PDF
           Scenario.busy_world); by vm_compute.
Defined.

(** The extension is compared as it is written: [SCAN.PDF] is not parsed
    as a PDF and contributes an empty text. *)
Example read_reference_file_capitals :
  read_reference_file Demo.externals Scenario.scan_PDF Scenario.busy_world
  = (Ok [], Scenario.busy_world).
Proof. by vm_compute. Qed.

Lemma check_plagiarism_frame_witness :
  files_outside ["temp_ref.pdf"; "temp_ref.docx"] Scenario.busy_world
    (with_files <["temp_ref.pdf" := getbuffer Demo.notes_pdf]>
       Scenario.busy_world) ∧
  rng (with_files <["temp_ref.pdf" := getbuffer Demo.notes_pdf]>
         Scenario.busy_world) = rng Scenario.busy_world ∧
  session_results (with_files <["temp_ref.pdf" := getbuffer Demo.notes_pdf]>
                     Scenario.busy_world)
  = session_results Scenario.busy_world.
Proof.
  apply (check_plagiarism_frame Demo.externals (u "a b")
           [Demo.intro_txt; Demo.notes_pdf; Demo.essay_txt]
           Scenario.busy_world _ (Raise (ExternalError "pdfminer"))).
  - discriminate.
  - by vm_compute.
Defined.

Lemma check_plagiarism_order_witness :
  ∃ s' w'', check_plagiarism Demo.externals (u "a b")
              [Demo.essay_txt; Demo.intro_txt] Demo.world0 = (Ok s', w'') ∧
            (s' == 100)%Q.
Proof.
  apply (check_plagiarism_order Demo.externals (u "a b")
           [Demo.intro_txt; Demo.essay_txt] [Demo.essay_txt; Demo.intro_txt]
           Demo.world0 Demo.world0 100%Q).
  - discriminate.
  - apply Permutation_swap.
  - by vm_compute.
Defined.

Lemma check_plagiarism_more_references_witness : (400 # 6 <= 100)%Q.
Proof.
  apply (check_plagiarism_more_references Demo.externals (u "a b")
           [Demo.intro_txt] [Demo.essay_txt; Demo.intro_txt]
           Demo.world0 Demo.world0 Demo.world0 Demo.world0).
  - discriminate.
  - intros ref ->%list_elem_of_singleton.
    apply list_elem_of_further, list_elem_of_here.
  - by vm_compute.
  - by vm_compute.
Defined.

Lemma fake_sensitive_check_monotone_witness :
  fake_sensitive_check Demo.externals (u "Kill")
  ⊆ fake_sensitive_check Demo.externals (u "I will KILL you").
Proof.
  apply (fake_sensitive_check_monotone Demo.externals (u "Kill")
           (u "I will KILL you")).
  exists (u "i will "), (u " you"). by vm_compute.
Defined.

Lemma keyword_forces_high_witness :
  risk 0 (fake_sensitive_check Demo.externals (u "I will KILL you")) = High.
Proof.
  apply (keyword_forces_high Demo.externals (u "I will KILL you") (u "kill")
           0%Q).
  - apply (bool_decide_unpack _). by vm_compute.
  - exists (u "i will "), (u " you"). by vm_compute.
Defined.

Lemma run_full_check_frame_witness :
  ("thesis.txt" ∉ temp_paths) ∧
  files (run_full_check Demo.externals (Demo.spoken "a b") "tiny"
           [Demo.notes_pdf] Scenario.busy_world).2 !! "thesis.txt"
  = files Scenario.busy_world !! "thesis.txt".
Proof.
  assert (Hpath : "thesis.txt" ∉ temp_paths) by paths.
  split; [exact Hpath|].
  apply (run_full_check_frame Demo.externals (Demo.spoken "a b") "tiny"
           [Demo.notes_pdf] Scenario.busy_world _
           (Raise (ExternalError "pdfminer"))); [by vm_compute | exact Hpath].
Defined.

Lemma run_full_check_raises_witness :
  ∃ ref, ref ∈ [Demo.intro_txt; Demo.notes_pdf] ∧
         ∀ w0, (read_reference_file Demo.externals ref w0).1
               = Raise (ExternalError "pdfminer").
Proof.
  apply (run_full_check_raises Demo.externals (Demo.spoken "a b") "tiny"
           [Demo.intro_txt; Demo.notes_pdf] Demo.world0
           (run_full_check Demo.externals (Demo.spoken "a b") "tiny"
              [Demo.intro_txt; Demo.notes_pdf] Demo.world0).2).
  by vm_compute.
Defined.

Lemma run_full_check_no_transcript_witness :
  run_full_check Scenario.deaf (Demo.spoken "a b") "tiny" [Demo.notes_pdf]
    Scenario.busy_world
  = (Ok tt,
     with_files (λ m, delete "temp_audio.wav" (delete "temp_video.mp4" m))
       Scenario.busy_world).
Proof.
  apply (run_full_check_no_transcript Scenario.deaf (Demo.spoken "a b")
           (Demo.spoken "a b") "tiny" [Demo.notes_pdf] Scenario.busy_world).
  - reflexivity.
  - right. by exists (ExternalError "whisper").
Defined.

Lemma run_full_check_no_audio_witness :
  ∃ w', run_full_check Demo.externals Demo.not_a_video "tiny"
          [Demo.notes_pdf] Scenario.busy_world = (Ok tt, w') ∧
        session_results w' = session_results Scenario.busy_world ∧
        rng w' = rng Scenario.busy_world ∧
        files w' !! "temp_audio.wav"
        = files Scenario.busy_world !! "temp_audio.wav".
Proof.
  apply (run_full_check_no_audio Demo.externals Demo.not_a_video "tiny"
           [Demo.notes_pdf] None Scenario.busy_world).
  reflexivity.
Defined.

Lemma run_full_check_complete_witness :
  ∃ s w', run_full_check Demo.externals (Demo.spoken "I will kill you")
            "tiny" [Scenario.copy_pdf; Demo.essay_txt] Demo.world0
          = (Ok tt, w') ∧
    (check_plagiarism Demo.externals (u "I will kill you")
       [Scenario.copy_pdf; Demo.essay_txt] Demo.world0).1 = Ok s ∧
    session_results w'
    = Some {| plag_percent := s;
              sensitive_words :=
                fake_sensitive_check Demo.externals (u "I will kill you");
              transcript := u "I will kill you" |} ∧
    files w' !! "temp_video.mp4" = None ∧
    files w' !! "temp_audio.wav" = None ∧
    (no_temp_files Demo.world0 → files w' = files Demo.world0).
Proof.
  apply (run_full_check_complete Demo.externals
           (Demo.spoken "I will kill you") (Demo.spoken "I will kill you")
           "tiny" [Scenario.copy_pdf; Demo.essay_txt] 73%N
           (u " will kill you") Demo.world0).
  - reflexivity.
  - by vm_compute.
  - intros ref [->|[->|[]%elem_of_nil]%elem_of_cons]%elem_of_cons.
    + exists (u "a b"). intros w0. by rewrite read_reference_file_fst.
    + exists (u "a b d"). intros w0. by rewrite read_reference_file_fst.
Defined.

Lemma no_reference_never_high_witness :
  risk 24 [] ≠ High ∧ (risk 24 [] = Medium ↔ (40 < 24)%Q).
Proof.
  apply (no_reference_never_high Demo.externals (u "a clean message")
           Demo.world0
           (check_plagiarism Demo.externals (u "a clean message") []
              Demo.world0).2 24%Q).
  - exact demo_randint_in_range.
  - by vm_compute.
Defined.

Lemma run_full_check_removes_media_witness :
  files (run_full_check Demo.externals (Demo.spoken "a b") "tiny"
           [Demo.essay_txt] Scenario.busy_world).2 !! "temp_video.mp4" = None ∧
  files (run_full_check Demo.externals (Demo.spoken "a b") "tiny"
           [Demo.essay_txt] Scenario.busy_world).2 !! "temp_audio.wav" = None.
Proof.
  apply (run_full_check_removes_media Demo.externals (Demo.spoken "a b")
           (Demo.spoken "a b") "tiny" [Demo.essay_txt] Scenario.busy_world).
  - reflexivity.
  - by vm_compute.
Defined.
